(** * go-auth: the user store, its validators and its credential codec

    A shallow embedding of [auth.go] and [userdb.go].

    - Go strings are byte strings: [string], one [ascii] per byte, [len] the
      byte count.  A [uint64] that is only read and printed is an [N].
    - A Go [error] is an [option] of an error value, [None] for [nil]; a
      pointer result is an [option], [None] for [nil]; a function that
      returns [(T, error)] returns the pair.
    - Code that touches the store, draws randomness or may panic runs in the
      monad [M] over a [World]: the tables of the store, a journal of the
      statements sent to it, the random sources.  The methods of [UserDb]
      run on a [UserDb] that [NewUserDB] has returned; its statement handles
      are the statements themselves.
    - [bcrypt], [net/mail] and [database/sql] are libraries: the first two are
      type classes with the laws the proofs use, the third is the store
      model.  The driver compiles the text of a statement before it runs it
      and refuses a name it cannot resolve; a statement that runs is answered
      with well-typed rows, and a [Query] may be refused by the driver. *)

From Stdlib Require Import String Ascii List Bool NArith ZArith Lia.
From Stdlib Require Import Sorted Permutation DecimalString Decimal DecimalN.
Import ListNotations.
Local Open Scope string_scope.
Local Open Scope Z_scope.

(** ** Go values *)

(** Error values.  [Errorf] is an error built by [fmt.Errorf]; the others are
    the sentinel errors of [database/sql], [net/mail] and [bcrypt] that the
    code can meet. *)
Inductive error_value : Type :=
| ErrNoRows
| ErrScanNotPointer (column : nat)
| ErrConstraint (column : string)
| ErrMailParse
| ErrPasswordTooLong
| ErrHashTooShort
| ErrMismatchedHashAndPassword
| ErrDriver (msg : string)
| Errorf (msg : string).

Definition error : Type := option error_value.

Definition len (s : string) : Z := Z.of_nat (String.length s).

(** [%d] of [fmt]. *)
Definition fmt_d (z : Z) : string := NilEmpty.string_of_int (Z.to_int z).

(** [strconv.FormatUint(n, 10)]. *)
Definition FormatUint (n : N) : string := NilEmpty.string_of_uint (N.to_uint n).

(** ** Regular expressions of the validators

    The three expressions all have the shape [^[class]*$] or [^[class]+$]:
    a character class, a repetition, anchored at both ends of the text. *)
Inductive repetition : Type := Star | Plus.

Record Regexp : Type := { class : ascii -> bool; rep : repetition }.

Fixpoint all_in (cls : ascii -> bool) (s : string) : bool :=
  match s with
  | EmptyString => true
  | String c rest => cls c && all_in cls rest
  end.

Definition MatchString (re : Regexp) (s : string) : bool :=
  match rep re with
  | Star => all_in (class re) s
  | Plus => negb (s =? "")%string && all_in (class re) s
  end.

Definition in_range (lo hi : string) (c : ascii) : bool :=
  match lo, hi with
  | String l _, String h _ =>
      (N_of_ascii l <=? N_of_ascii c)%N && (N_of_ascii c <=? N_of_ascii h)%N
  | _, _ => false
  end.

Definition one_of (chars : string) (c : ascii) : bool :=
  existsb (Ascii.eqb c) (list_ascii_of_string chars).

(** [\d] and [\w] of RE2 are ASCII only. *)
Definition digit (c : ascii) : bool := in_range "0" "9" c.
Definition word (c : ascii) : bool :=
  digit c || in_range "A" "Z" c || in_range "a" "z" c || one_of "_" c.

Definition PASSWORD_REGEX : Regexp :=
  {| class := fun c => in_range "A" "Z" c || in_range "a" "z" c || digit c
                       || one_of "@$!%*#?&.~^-" c;
     rep := Star |}.

Definition USERNAME_REGEX : Regexp :=
  {| class := fun c => word c || one_of "-.@" c; rep := Plus |}.

Definition NAME_REGEX : Regexp :=
  {| class := fun c => word c || one_of "- " c; rep := Plus |}.

Definition MIN_PASSWORD_LENGTH : Z := 8.
Definition MIN_NAME_LENGTH : Z := 4.
Definition STANDARD_ROLE : string := "Standard".

(** ** Validators *)

Definition CheckPassword (password : string) : error :=
  if negb (password =? "")%string && (len password <? MIN_PASSWORD_LENGTH) then
    Some (Errorf ("password must be at least " ++ fmt_d MIN_PASSWORD_LENGTH
                  ++ " characters"))
  else if negb (MatchString PASSWORD_REGEX password) then
    Some (Errorf "invalid password")
  else None.

Definition CheckUsername (username : string) : error :=
  if len username <? MIN_NAME_LENGTH then
    Some (Errorf ("username must be at least " ++ fmt_d MIN_NAME_LENGTH
                  ++ " characters"))
  else if negb (MatchString USERNAME_REGEX username) then
    Some (Errorf "invalid username")
  else None.

Definition CheckName (name : string) : error :=
  if len name <? MIN_NAME_LENGTH then
    Some (Errorf ("name must be at least " ++ fmt_d MIN_NAME_LENGTH
                  ++ " characters"))
  else if negb (MatchString NAME_REGEX name) then
    Some (Errorf "invalid name")
  else None.

(** ** Records of [auth.go] *)

Module AuthUser.
Record t : Type := {
  Uuid : string;
  FirstName : string;
  LastName : string;
  Username : string;
  Email : string;
  HashedPassword : string;
  EmailVerified : bool;
  CanSignIn : bool;
  Updated : N
}.
End AuthUser.

Module Permission.
Record t : Type := { Uuid : string; Name : string }.
End Permission.

Module Role.
Record t : Type := { Uuid : string; Name : string; Permissions : list Permission.t }.
End Role.

Module PublicRole.
Record t : Type := { Name : string; Permissions : list string }.
End PublicRole.

Definition NewAuthUser (uuid firstName lastName userName email hashedPassword : string)
    (isVerified canSignIn : bool) (updated : N) : AuthUser.t :=
  {| AuthUser.Uuid := uuid;
     AuthUser.FirstName := firstName;
     AuthUser.LastName := lastName;
     AuthUser.Username := userName;
     AuthUser.Email := email;
     AuthUser.HashedPassword := hashedPassword;
     AuthUser.EmailVerified := isVerified;
     AuthUser.CanSignIn := canSignIn;
     AuthUser.Updated := updated |}.

(** Modelled from the spec: the signup request ([SignupReq] is declared outside
    [auth.go] and [userdb.go]).  Section 4.3 gives it the first name, the last
    name, the email and the plaintext password. *)
Module SignupReq.
Record t : Type := {
  FirstName : string;
  LastName : string;
  Email : string;
  Password : string
}.
End SignupReq.

(** ** Libraries the code calls *)

(** [net/mail]: a parsed address, and [mail.ParseAddress]. *)
Module mail.
Record Address : Type := { Name : string; Addr : string }.
End mail.

Class NetMail : Type := {
  ParseAddress : string -> option mail.Address * error;
  ParseAddress_result : forall s,
    (exists a, ParseAddress s = (Some a, None)) \/
    (exists e, ParseAddress s = (None, Some e))
}.

(** [golang.org/x/crypto/bcrypt].  The random salt that [GenerateFromPassword]
    draws is an argument here.  The laws: a password of more than 72 bytes is
    refused, any other is hashed, and a hash compares equal to its own
    plaintext only.  bcrypt reads a plaintext up to its first NUL byte and no
    further than 72 bytes, so the last law is that of the library for
    plaintexts of at most 72 bytes without a NUL byte: the decimal numbers of
    the one-time codes and the passwords [CheckPassword] accepts, for which
    the properties below use it. *)
Definition DefaultCost : Z := 10.

Class Bcrypt : Type := {
  GenerateFromPassword : string -> Z -> string -> string * error;
  CompareHashAndPassword : string -> string -> error;
  generate_too_long : forall password salt,
    72 < len password ->
    GenerateFromPassword password DefaultCost salt = (""%string, Some ErrPasswordTooLong);
  generate_hashes : forall password salt,
    len password <= 72 ->
    exists hash, GenerateFromPassword password DefaultCost salt = (hash, None);
  compare_generated : forall password salt hash plain,
    GenerateFromPassword password DefaultCost salt = (hash, None) ->
    (CompareHashAndPassword hash plain = None <-> password = plain)
}.

(** ** The store

    The relational store behind [database/sql].  Tables are lists of rows in
    insertion order.  A lookup of one row and a write always reach the store
    (no connectivity failure is modelled for them), so a write fails only on
    a constraint; the query of a prepared statement may be refused by the
    driver ([query_error] of the world). *)
Module users.
Record row : Type := {
  uuid : string;
  first_name : string;
  last_name : string;
  username : string;
  email : string;
  password : string;
  email_verified : bool;
  can_signin : bool;
  updated_on : N
}.
End users.

Module roles.
Record row : Type := { uuid : string; name : string }.
End roles.

Module user_roles.
Record row : Type := { user_uuid : string; role_uuid : string }.
End user_roles.

(** A row of [USER_PERMISSIONS_SQL]. *)
Module permissions.
Record row : Type := { uuid : string; name : string }.
End permissions.

(** A row of [USER_ROLE_PERMISSIONS_SQL]. *)
Module role_permission.
Record row : Type := {
  role_uuid : string;
  role_name : string;
  permission_uuid : string;
  permission_name : string
}.
End role_permission.

(** The statements the embedded code sends, by the name of their constant
    ([ALL_ROLES_SQL], [ROLE_BY_NAME_SQL] and [INSERT_USER_ROLE_SQL] are the
    three literals of [Roles], [Role] and [AddUserRole]). *)
Inductive statement : Type :=
| FIND_USER_BY_UUID_SQL
| FIND_USER_BY_EMAIL_SQL
| FIND_USER_BY_USERNAME_SQL
| ROLES_SQL
| USER_ROLE_PERMISSIONS_SQL
| USER_PERMISSIONS_SQL
| CREATE_USER_SQL
| SET_EMAIL_VERIFIED_SQL
| SET_PASSWORD_SQL
| SET_USERNAME_SQL
| SET_NAME_SQL
| SET_INFO_SQL
| SET_EMAIL_SQL
| ALL_ROLES_SQL
| ROLE_BY_NAME_SQL
| INSERT_USER_ROLE_SQL.

(** The names in the text of a statement: the tables it lists (after [FROM],
    [INTO] or [UPDATE]) and the columns it qualifies with a table, in the
    order of the text. *)
Definition tables_of (q : statement) : list string :=
  match q with
  | FIND_USER_BY_UUID_SQL | FIND_USER_BY_EMAIL_SQL | FIND_USER_BY_USERNAME_SQL =>
      ["users"]
  | ROLES_SQL => ["user_roles"; "roles"]
  | USER_ROLE_PERMISSIONS_SQL => ["user_roles"; "role_permissions"; "permissions"]
  | USER_PERMISSIONS_SQL => ["user_roles"; "role_permissions"; "permissions"]
  | CREATE_USER_SQL => ["users"]
  | SET_EMAIL_VERIFIED_SQL | SET_PASSWORD_SQL | SET_USERNAME_SQL | SET_NAME_SQL
  | SET_INFO_SQL | SET_EMAIL_SQL => ["users"]
  | ALL_ROLES_SQL | ROLE_BY_NAME_SQL => ["roles"]
  | INSERT_USER_ROLE_SQL => ["user_roles"]
  end.

Definition columns_of (q : statement) : list (string * string) :=
  match q with
  | FIND_USER_BY_UUID_SQL => [("users", "uuid")]
  | FIND_USER_BY_EMAIL_SQL => [("users", "email")]
  | FIND_USER_BY_USERNAME_SQL => [("users", "username")]
  | ROLES_SQL =>
      [("roles", "uuid"); ("roles", "name"); ("user_roles", "user_uuid");
       ("roles", "uuid"); ("user_roles", "role_uuid"); ("roles", "name")]
  | USER_ROLE_PERMISSIONS_SQL =>
      [("roles", "uuid"); ("roles", "name"); ("permissions", "uuid");
       ("permissions", "name"); ("user_roles", "user_uuid");
       ("role_permissions", "role_uuid"); ("user_roles", "role_uuid");
       ("permissions", "uuid"); ("role_permissions", "permission_uuid");
       ("roles", "name"); ("permissions", "name")]
  | USER_PERMISSIONS_SQL =>
      [("permissions", "uuid"); ("permissions", "name"); ("user_roles", "user_uuid");
       ("role_permissions", "role_uuid"); ("user_roles", "role_uuid");
       ("permissions", "uuid"); ("role_permissions", "permission_uuid");
       ("permissions", "name")]
  | CREATE_USER_SQL => []
  | SET_EMAIL_VERIFIED_SQL | SET_PASSWORD_SQL | SET_USERNAME_SQL | SET_NAME_SQL
  | SET_INFO_SQL | SET_EMAIL_SQL => [("users", "uuid")]
  | ALL_ROLES_SQL | ROLE_BY_NAME_SQL => [("roles", "name")]
  | INSERT_USER_ROLE_SQL => []
  end.

(** SQLite resolves the names when it compiles a statement, before any row is
    read: a column of a table that the statement does not list is refused
    with "no such column".  [unresolved] is the first such column of the
    text. *)
Definition unresolved (q : statement) : option (string * string) :=
  find (fun c => negb (existsb (String.eqb (fst c)) (tables_of q))) (columns_of q).

Definition compile (q : statement) : error :=
  match unresolved q with
  | Some (table, column) =>
      Some (ErrDriver ("no such column: " ++ table ++ "." ++ column))
  | None => None
  end.

Record Store : Type := {
  users_table : list users.row;
  roles_table : list roles.row;
  user_roles_table : list user_roles.row;
  (** the rows the store holds for the join of [USER_ROLE_PERMISSIONS_SQL] and
      a user uuid, for a statement that runs *)
  user_role_permissions : string -> list role_permission.row * error;
  (** the rows of [USER_PERMISSIONS_SQL] for a user uuid *)
  user_permissions : string -> list permissions.row;
  (** column default of [users.can_signin] *)
  can_signin_default : bool
}.

(** The world a call runs in: the store, the journal of the statements sent
    to it (latest last), the clock of the store, the random sources and the
    number of draws made from them, and what the driver answers to
    [sql.Open], to [Prepare] and to the [Query] of a prepared statement (a
    file it cannot open, a connection it has lost). *)
Record World : Type := {
  store : Store;
  journal : list (statement * list string);
  clock : N;
  salts : nat -> string;
  uuids : nat -> string;
  draws : nat;
  open_error : string -> error;
  prepare_error : statement -> error;
  query_error : statement -> list string -> error
}.

Definition with_store (w : World) (s : Store) : World :=
  {| store := s; journal := journal w; clock := clock w; salts := salts w;
     uuids := uuids w; draws := draws w; open_error := open_error w;
     prepare_error := prepare_error w; query_error := query_error w |}.

Definition sent (w : World) (q : statement) (args : list string) : World :=
  {| store := store w; journal := journal w ++ [(q, args)]; clock := clock w;
     salts := salts w; uuids := uuids w; draws := draws w;
     open_error := open_error w; prepare_error := prepare_error w;
     query_error := query_error w |}.

Definition drawn (w : World) : World :=
  {| store := store w; journal := journal w; clock := clock w; salts := salts w;
     uuids := uuids w; draws := S (draws w); open_error := open_error w;
     prepare_error := prepare_error w; query_error := query_error w |}.

(** ** The monad of calls: state and panic *)
Inductive outcome (A : Type) : Type :=
| Returns (a : A) (w : World)
| Panics (msg : string) (w : World).
Arguments Returns {A} a w.
Arguments Panics {A} msg w.

Definition M (A : Type) : Type := World -> outcome A.

Definition pure {A} (a : A) : M A := fun w => Returns a w.

Definition bind {A B} (m : M A) (k : A -> M B) : M B :=
  fun w => match m w with
           | Returns a w' => k a w'
           | Panics msg w' => Panics msg w'
           end.

Definition panic {A} (msg : string) : M A := fun w => Panics msg w.

Declare Scope go_scope.
Delimit Scope go_scope with go.
Notation "x <- m ;; k" := (bind m (fun x => k))
  (at level 100, m at next level, right associativity) : go_scope.
Local Open Scope go_scope.

(** [sys.Must] of go-sys: the value, or a panic on a non-nil error. *)
Definition Must {A} (r : A * error) : M A :=
  match r with
  | (_, Some _) => panic "sys.Must"
  | (a, None) => pure a
  end.

(** Reading a field through a pointer. *)
Definition deref {A} (p : option A) : M A :=
  match p with
  | Some a => pure a
  | None => panic "invalid memory address or nil pointer dereference"
  end.

(** [crypto/rand] as read by bcrypt, and [uuid.New().String()]. *)
Definition fresh_salt : M string := fun w => Returns (salts w (draws w)) (drawn w).
Definition Uuid : M string := fun w => Returns (uuids w (draws w)) (drawn w).

(** ** [database/sql] over the store *)

Definition select_user (q : statement) (arg : string) (s : Store) : option users.row :=
  match q with
  | FIND_USER_BY_UUID_SQL =>
      find (fun r => (users.uuid r =? arg)%string) (users_table s)
  | FIND_USER_BY_EMAIL_SQL =>
      find (fun r => (users.email r =? arg)%string) (users_table s)
  | FIND_USER_BY_USERNAME_SQL =>
      find (fun r => (users.username r =? arg)%string) (users_table s)
  | _ => None
  end.

(** [stmt.QueryRow(arg)] on one of the three user lookups: the first matching
    row, if any. *)
Definition QueryRow (q : statement) (arg : string) : M (option users.row) :=
  fun w => Returns (select_user q arg (store w)) (sent w q [arg]).

(** [userdb.QueryRow("SELECT uuid, name FROM roles WHERE roles.name = ?", name)]. *)
Definition QueryRow_roles (name : string) : M (option roles.row) :=
  fun w => Returns (find (fun r => (roles.name r =? name)%string) (roles_table (store w)))
                   (sent w ROLE_BY_NAME_SQL [name]).

(** [userdb.Query(USER_ROLE_PERMISSIONS_SQL, uuid)]: [db.Query] hands the text
    to the driver, which compiles it and then runs it. *)
Definition Query_role_permissions (uuid : string)
    : M (list role_permission.row * error) :=
  fun w => Returns (match compile USER_ROLE_PERMISSIONS_SQL with
                    | Some err => ([], Some err)
                    | None => user_role_permissions (store w) uuid
                    end)
                   (sent w USER_ROLE_PERMISSIONS_SQL [uuid]).

(** [Row.Scan].  A destination is passed as a pointer or, by mistake, as a
    value; [convertAssign] refuses a destination that is not a pointer.  A
    successful scan yields the row it has written through the pointers. *)
Inductive dest : Type := Pointer | Value.

Inductive scanned (R : Type) : Type :=
| Scanned (r : R)
| ScanError (e : error_value).
Arguments Scanned {R} r.
Arguments ScanError {R} e.

Fixpoint first_value (column : nat) (dests : list dest) : option nat :=
  match dests with
  | [] => None
  | Value :: _ => Some column
  | Pointer :: rest => first_value (S column) rest
  end.

Definition Scan {R} (row : option R) (dests : list dest) : scanned R :=
  match row with
  | None => ScanError ErrNoRows
  | Some r =>
      match first_value 0 dests with
      | Some column => ScanError (ErrScanNotPointer column)
      | None => Scanned r
      end
  end.

Definition pointers (n : nat) : list dest := repeat Pointer n.

(** Modelled from the spec: the row-update trigger of the [users] table (the
    schema is outside [auth.go] and [userdb.go]; the UPDATE statements name no
    timestamp column).  Section 4.3: "on success, the write implicitly advances
    the account's last-updated timestamp"; section 3 gives the timestamp a
    resolution of seconds.  The model moves it to the next second. *)
Definition advance (updated_on : N) : N := N.succ updated_on.

Definition set_users (s : Store) (rows : list users.row) : Store :=
  {| users_table := rows; roles_table := roles_table s;
     user_roles_table := user_roles_table s;
     user_role_permissions := user_role_permissions s;
     user_permissions := user_permissions s;
     can_signin_default := can_signin_default s |}.

Definition set_user_roles (s : Store) (rows : list user_roles.row) : Store :=
  {| users_table := users_table s; roles_table := roles_table s;
     user_roles_table := rows;
     user_role_permissions := user_role_permissions s;
     user_permissions := user_permissions s;
     can_signin_default := can_signin_default s |}.

(** Modelled from the spec: the constraints and column defaults of [users]
    (the schema is outside the two files).  Section 6: [id] is the primary key,
    [username] and [email] are UNIQUE; section 8: a new account has
    [email_verified = false]. *)
Definition insert_user (uuid first_name last_name username email password : string)
    (now : N) (s : Store) : Store * error :=
  if existsb (fun r => (users.uuid r =? uuid)%string) (users_table s) then
    (s, Some (ErrConstraint "users.uuid"))
  else if existsb (fun r => (users.username r =? username)%string) (users_table s) then
    (s, Some (ErrConstraint "users.username"))
  else if existsb (fun r => (users.email r =? email)%string) (users_table s) then
    (s, Some (ErrConstraint "users.email"))
  else
    (set_users s (users_table s ++
       [{| users.uuid := uuid; users.first_name := first_name;
           users.last_name := last_name; users.username := username;
           users.email := email; users.password := password;
           users.email_verified := false;
           users.can_signin := can_signin_default s;
           users.updated_on := now |}]), None).

(** [SET_PASSWORD_SQL]: the password of every row with the uuid, and through
    the trigger its timestamp. *)
Definition set_password (hash uuid : string) (s : Store) : Store :=
  set_users s
    (map (fun r =>
            if (users.uuid r =? uuid)%string then
              {| users.uuid := users.uuid r; users.first_name := users.first_name r;
                 users.last_name := users.last_name r; users.username := users.username r;
                 users.email := users.email r; users.password := hash;
                 users.email_verified := users.email_verified r;
                 users.can_signin := users.can_signin r;
                 users.updated_on := advance (users.updated_on r) |}
            else r)
         (users_table s)).

(** Modelled from the spec: [user_roles] refuses an association that exists
    already (section 4.3, GrantRole). *)
Definition insert_user_role (user_uuid role_uuid : string) (s : Store) : Store * error :=
  if existsb (fun r => (user_roles.user_uuid r =? user_uuid)%string
                       && (user_roles.role_uuid r =? role_uuid)%string)
             (user_roles_table s) then
    (s, Some (ErrConstraint "user_roles"))
  else
    (set_user_roles s (user_roles_table s ++
       [{| user_roles.user_uuid := user_uuid; user_roles.role_uuid := role_uuid |}]),
     None).

Definition run_exec (q : statement) (args : list string) (now : N) (s : Store)
    : Store * error :=
  match q, args with
  | CREATE_USER_SQL, [uuid; first_name; last_name; username; email; password] =>
      insert_user uuid first_name last_name username email password now s
  | SET_PASSWORD_SQL, [hash; uuid] => (set_password hash uuid s, None)
  | INSERT_USER_ROLE_SQL, [user_uuid; role_uuid] => insert_user_role user_uuid role_uuid s
  | _, _ => (s, Some (ErrDriver "statement not modelled"))
  end.

(** [stmt.Exec(args...)]; the [sql.Result] is dropped by every caller. *)
Definition Exec (q : statement) (args : list string) : M error :=
  fun w => let (s, err) := run_exec q args (clock w) (store w) in
           Returns err (sent (with_store w s) q args).

(** [sql.Open] and [db.Prepare]: the handle is the file, a prepared statement is
    the statement.  [Prepare] has the driver compile the text. *)
Definition sql_Open (file : string) : M (string * error) :=
  fun w => Returns (file, open_error w file) w.

Definition Prepare (db : string) (q : statement) : M (statement * error) :=
  fun w => Returns (q, match compile q with
                       | Some err => Some err
                       | None => prepare_error w q
                       end) w.

(** ** [auth.go] and [userdb.go]

    A pointer parameter that a function dereferences first thing
    ([*AuthUser], [*SignupReq]) is taken by value: the embedding starts from a
    non-nil argument.  Pointers that the code tests or passes on stay
    options. *)
Section Code.
Context {net_mail : NetMail} {bcrypt : Bcrypt}.

Definition HashPassword (password : string) : M string :=
  salt <- fresh_salt ;;
  Must (GenerateFromPassword password DefaultCost salt).

Definition CheckPasswordsMatch (hashedPassword plainPwd : string) : error :=
  match CompareHashAndPassword hashedPassword plainPwd with
  | Some _ => Some (Errorf "passwords do not match")
  | None => None
  end.

Definition CreateOtp (user : AuthUser.t) : M string :=
  HashPassword (FormatUint (AuthUser.Updated user)).

Definition CheckOtpValid (user : AuthUser.t) (otp : string) : error :=
  match CheckPasswordsMatch otp (FormatUint (AuthUser.Updated user)) with
  | Some _ => Some (Errorf "one time code has expired")
  | None => None
  end.

(** Modelled from the spec: [SignupReq.HashedPassword] (declared with
    [SignupReq], outside the two files).  Section 4.3: the account is created
    from the plaintext password, stored as its hash (section 4.2). *)
Definition SignupReq_HashedPassword (user : SignupReq.t) : M string :=
  HashPassword (SignupReq.Password user).

Record UserDb : Type := {
  db : string;
  findUserByEmailStmt : statement;
  findUserByUsernameStmt : statement;
  findUserByIdStmt : statement;
  rolesStmt : statement;
  permissionsStmt : statement;
  createUserStmt : statement;
  setEmailVerifiedStmt : statement;
  setPasswordStmt : statement;
  setUsernameStmt : statement;
  setNameStmt : statement;
  setInfoStmt : statement;
  setEmailStmt : statement
}.

Definition MustPrepare (db : string) (q : statement) : M statement :=
  r <- Prepare db q ;; Must r.

Definition NewUserDB (file : string) : M (option UserDb * error) :=
  opened <- sql_Open file ;;
  db <- Must opened ;;
  byEmail <- MustPrepare db FIND_USER_BY_EMAIL_SQL ;;
  byUsername <- MustPrepare db FIND_USER_BY_USERNAME_SQL ;;
  byId <- MustPrepare db FIND_USER_BY_UUID_SQL ;;
  createUser <- MustPrepare db CREATE_USER_SQL ;;
  setEmailVerified <- MustPrepare db SET_EMAIL_VERIFIED_SQL ;;
  setPassword <- MustPrepare db SET_PASSWORD_SQL ;;
  setUsername <- MustPrepare db SET_USERNAME_SQL ;;
  setName <- MustPrepare db SET_NAME_SQL ;;
  setInfo <- MustPrepare db SET_INFO_SQL ;;
  setEmail <- MustPrepare db SET_EMAIL_SQL ;;
  roles <- MustPrepare db ROLES_SQL ;;
  permissions <- MustPrepare db USER_PERMISSIONS_SQL ;;
  pure (Some {| db := db;
                findUserByEmailStmt := byEmail;
                findUserByUsernameStmt := byUsername;
                findUserByIdStmt := byId;
                rolesStmt := roles;
                permissionsStmt := permissions;
                createUserStmt := createUser;
                setEmailVerifiedStmt := setEmailVerified;
                setPasswordStmt := setPassword;
                setUsernameStmt := setUsername;
                setNameStmt := setName;
                setInfoStmt := setInfo;
                setEmailStmt := setEmail |}, None).

Definition FindUserByEmail (email : option mail.Address)
    : M (option AuthUser.t * error) :=
  match email with
  | None => pure (None, Some (Errorf "no email address"))
  | Some address =>
      row <- QueryRow FIND_USER_BY_EMAIL_SQL (mail.Addr address) ;;
      match Scan row (pointers 8) with
      | ScanError err => pure (None, Some err)
      | Scanned r =>
          pure (Some (NewAuthUser (users.uuid r) (users.first_name r)
                        (users.last_name r) (users.username r) (mail.Addr address)
                        (users.password r) (users.email_verified r)
                        (users.can_signin r) (users.updated_on r)), None)
      end
  end.

Definition FindUserByUsername (username : string) : M (option AuthUser.t * error) :=
  match CheckUsername username with
  | Some err => pure (None, Some err)
  | None =>
      row <- QueryRow FIND_USER_BY_USERNAME_SQL username ;;
      match Scan row (pointers 8) with
      | ScanError _ =>
          match ParseAddress username with
          | (_, Some err) => pure (None, Some err)
          | (e, None) => FindUserByEmail e
          end
      | Scanned r =>
          pure (Some (NewAuthUser (users.uuid r) (users.first_name r)
                        (users.last_name r) username (users.email r)
                        (users.password r) (users.email_verified r)
                        (users.can_signin r) (users.updated_on r)), None)
      end
  end.

Definition FindUserByUuid (uuid : string) : M (option AuthUser.t * error) :=
  row <- QueryRow FIND_USER_BY_UUID_SQL uuid ;;
  match Scan row (pointers 8) with
  | ScanError err => pure (None, Some err)
  | Scanned r =>
      pure (Some (NewAuthUser uuid (users.first_name r) (users.last_name r)
                    (users.username r) (users.email r) (users.password r)
                    (users.email_verified r) (users.can_signin r)
                    (users.updated_on r)), None)
  end.

Definition FindUserById (id : string) : M (option AuthUser.t * error) :=
  byUsername <- FindUserByUsername id ;;
  match byUsername with
  | (authUser, None) => pure (authUser, None)
  | (_, Some _) =>
      let byUuid :=
        byUuid <- FindUserByUuid id ;;
        match byUuid with
        | (_, Some err) => pure (None, Some err)
        | (authUser, None) => pure (authUser, None)
        end in
      match ParseAddress id with
      | (email, None) =>
          byEmail <- FindUserByEmail email ;;
          match byEmail with
          | (authUser, None) => pure (authUser, None)
          | (_, Some _) => byUuid
          end
      | (_, Some _) => byUuid
      end
  end.

(** [UserDb.Role]: both destinations of [Scan] are the fields of [role]
    themselves, not their addresses, so [role] is never written. *)
Definition UserDb_Role (name : string) : M (option Role.t * error) :=
  let role := {| Role.Uuid := ""; Role.Name := ""; Role.Permissions := [] |} in
  row <- QueryRow_roles name ;;
  match Scan row [Value; Value] with
  | ScanError err => pure (None, Some err)
  | Scanned _ => pure (Some role, None)
  end.

Definition AddUserRole (user : option AuthUser.t) (role : string) : M error :=
  found <- UserDb_Role role ;;
  match found with
  | (_, Some _) => pure (Some (Errorf (role ++ " role not available")))
  | (r, None) =>
      u <- deref user ;;
      r <- deref r ;;
      err <- Exec INSERT_USER_ROLE_SQL [AuthUser.Uuid u; Role.Uuid r] ;;
      match err with
      | Some _ => pure (Some (Errorf (role ++ " role not available")))
      | None => pure None
      end
  end.

(** [ret[idx].Field = ...]: out of range is a run-time panic. *)
Fixpoint alter_at {A} (f : A -> A) (n : nat) (l : list A) : list A :=
  match l, n with
  | [], _ => []
  | x :: rest, O => f x :: rest
  | x :: rest, S m => x :: alter_at f m rest
  end.

Definition index_alter {A} (f : A -> A) (idx : Z) (l : list A) : option (list A) :=
  if (idx <? 0) || (Z.of_nat (List.length l) <=? idx) then None
  else Some (alter_at f (Z.to_nat idx) l).

Definition append_permission (permissionName : string) (r : PublicRole.t) : PublicRole.t :=
  {| PublicRole.Name := PublicRole.Name r;
     PublicRole.Permissions := PublicRole.Permissions r ++ [permissionName] |}.

(** The [for rows.Next()] loop of [PublicUserRolePermissions], from the rows
    still to come, [currentRole] and [ret]. *)
Fixpoint role_permissions_loop (rows : list role_permission.row)
    (currentRole : string) (ret : list PublicRole.t) : M (list PublicRole.t) :=
  match rows with
  | [] => pure ret
  | row :: rest =>
      let roleUuid := role_permission.role_uuid row in
      let newRole := negb (roleUuid =? currentRole)%string in
      let ret :=
        if newRole then
          (ret ++ [{| PublicRole.Name := role_permission.role_name row;
                      PublicRole.Permissions := [] |}])%list
        else ret in
      let currentRole := if newRole then roleUuid else currentRole in
      let idx := Z.of_nat (List.length ret) - 1 in
      match index_alter (append_permission (role_permission.permission_name row))
                        idx ret with
      | None => panic "index out of range"
      | Some ret => role_permissions_loop rest currentRole ret
      end
  end.

Definition PublicUserRolePermissions (user : AuthUser.t)
    : M (option (list PublicRole.t) * error) :=
  answer <- Query_role_permissions (AuthUser.Uuid user) ;;
  match answer with
  | (_, Some err) => pure (None, Some err)
  | (rows, None) =>
      ret <- role_permissions_loop rows "" [] ;;
      pure (Some ret, None)
  end.

Definition SetPassword (uuid password : string) : M error :=
  match CheckPassword password with
  | Some err => pure (Some err)
  | None =>
      hash <- HashPassword password ;;
      err <- Exec SET_PASSWORD_SQL [hash; uuid] ;;
      match err with
      | Some _ => pure (Some (Errorf "could not update password"))
      | None => pure err
      end
  end.

Definition already_registered : error_value :=
  Errorf "user already registered:please sign up with another email address".

Definition CreateStandardUser (user : SignupReq.t) : M (option AuthUser.t * error) :=
  (* the end of the function, shared by the two branches *)
  let give_standard_role (authUser : option AuthUser.t) :=
    _ <- AddUserRole authUser STANDARD_ROLE ;;
    pure (authUser, None) in
  match CheckPassword (SignupReq.Password user) with
  | Some err => pure (None, Some err)
  | None =>
      match ParseAddress (SignupReq.Email user) with
      | (_, Some err) => pure (None, Some err)
      | (email, None) =>
          found <- FindUserByEmail email ;;
          match found with
          | (_, Some _) =>
              uuid <- Uuid ;;
              address <- deref email ;;
              hashed <- SignupReq_HashedPassword user ;;
              err <- Exec CREATE_USER_SQL
                       [uuid; SignupReq.FirstName user; SignupReq.LastName user;
                        mail.Addr address; mail.Addr address; hashed] ;;
              match err with
              | Some err => pure (None, Some err)
              | None =>
                  again <- FindUserByEmail email ;;
                  match again with
                  | (_, Some err) => pure (None, Some err)
                  | (authUser, None) => give_standard_role authUser
                  end
              end
          | (authUser, None) =>
              u <- deref authUser ;;
              if AuthUser.EmailVerified u then
                pure (None, Some already_registered)
              else
                err <- SetPassword (AuthUser.Uuid u) (SignupReq.Password user) ;;
                match err with
                | Some _ => pure (None, Some already_registered)
                | None => give_standard_role authUser
                end
          end
      end
  end.
End Code.

(** * Specification

    What the properties below are stated with. *)

Section Specification.
Context {net_mail : NetMail} {bcrypt : Bcrypt}.

(** The world a call leaves behind, however it ends. *)
Definition final {A} (o : outcome A) : World :=
  match o with
  | Returns _ w => w
  | Panics _ w => w
  end.

(** What a lookup answers for the row the store has found. *)
Definition by_email (address : string) (row : option users.row)
    : option AuthUser.t * error :=
  match row with
  | Some r =>
      (Some (NewAuthUser (users.uuid r) (users.first_name r) (users.last_name r)
               (users.username r) address (users.password r)
               (users.email_verified r) (users.can_signin r) (users.updated_on r)),
       None)
  | None => (None, Some ErrNoRows)
  end.

(** The same for [FindUserByUuid], which keeps the uuid it was asked for. *)
Definition by_uuid (uuid : string) (row : option users.row)
    : option AuthUser.t * error :=
  match row with
  | Some r =>
      (Some (NewAuthUser uuid (users.first_name r) (users.last_name r)
               (users.username r) (users.email r) (users.password r)
               (users.email_verified r) (users.can_signin r) (users.updated_on r)),
       None)
  | None => (None, Some ErrNoRows)
  end.

(** A lookup ends with an account and no error, or with an error and no
    account; it never panics. *)
Definition found_or_failed (o : outcome (option AuthUser.t * error)) : Prop :=
  exists w', (exists u, o = Returns (Some u, None) w') \/
             (exists err, o = Returns (None, Some err) w').

(** Section 4.4 in its own words: an ordered list of lookup strategies, tried
    in sequence; the first that finds an account answers, and not-found is the
    answer once the list is exhausted. *)
Definition strategy : Type := M (option AuthUser.t * error).

Fixpoint first_success (strategies : list strategy) : strategy :=
  match strategies with
  | [] => pure (None, Some ErrNoRows)
  | try :: rest =>
      r <- try ;;
      match r with
      | (Some account, None) => pure (Some account, None)
      | _ => first_success rest
      end
  end.

Definition ResolveIdentifier (token : string) : strategy :=
  first_success
    ([FindUserByUsername token]
     ++ match ParseAddress token with
        | (Some email, None) => [FindUserByEmail (Some email)]
        | _ => []
        end
     ++ [FindUserByUuid token]).

Definition statement_eq_dec (p q : statement) : {p = q} + {p <> q}.
Proof. decide equality. Defined.

(** How often statement [q] occurs among journal entries. *)
Definition times_sent (q : statement) (entries : list (statement * list string)) : nat :=
  count_occ statement_eq_dec (map fst entries) q.

(** The statements [FindUserByUsername] sends: none for a malformed name;
    else the username lookup, and the email lookup after it when no row has
    the username and the name parses as an address. *)
Definition FindUserByUsername_sends (username : string) (s : Store)
    : list (statement * list string) :=
  match CheckUsername username with
  | Some _ => []
  | None =>
      (FIND_USER_BY_USERNAME_SQL, [username]) ::
      match select_user FIND_USER_BY_USERNAME_SQL username s, ParseAddress username with
      | None, (Some address, None) => [(FIND_USER_BY_EMAIL_SQL, [mail.Addr address])]
      | _, _ => []
      end
  end.

(** The world after a password write. *)
Definition password_written (hash uuid : string) (w : World) : World :=
  sent (with_store (drawn w) (set_password hash uuid (store w)))
       SET_PASSWORD_SQL [hash; uuid].

(** The account [FindUserByEmail] builds from a row. *)
Definition account_of (address : string) (r : users.row) : AuthUser.t :=
  NewAuthUser (users.uuid r) (users.first_name r) (users.last_name r)
    (users.username r) address (users.password r) (users.email_verified r)
    (users.can_signin r) (users.updated_on r).

(** The call ends in a panic. *)
Definition panics {A} (o : outcome A) : Prop :=
  match o with
  | Panics _ _ => True
  | Returns _ _ => False
  end.

(** The rows of the answer cut into maximal runs of equal role uuid. *)
Fixpoint runs (rows : list role_permission.row) : list (list role_permission.row) :=
  match rows with
  | [] => []
  | r :: rest =>
      match runs rest with
      | (r' :: run) :: others =>
          if (role_permission.role_uuid r =? role_permission.role_uuid r')%string
          then (r :: r' :: run) :: others
          else [r] :: (r' :: run) :: others
      | _ => [[r]]
      end
  end.

(** The group of a run: the role name of its first row, the permission names
    of its rows in their order. *)
Definition group_of (run : list role_permission.row) : PublicRole.t :=
  {| PublicRole.Name :=
       match run with
       | r :: _ => role_permission.role_name r
       | [] => ""%string
       end;
     PublicRole.Permissions := map role_permission.permission_name run |}.

(** The groups the loop ends with, from the rows still to come, the current
    role and the group in progress. *)
Fixpoint continue (currentRole : string) (g : PublicRole.t)
    (rows : list role_permission.row) : list PublicRole.t :=
  match rows with
  | [] => [g]
  | r :: rest =>
      if (role_permission.role_uuid r =? currentRole)%string then
        continue currentRole (append_permission (role_permission.permission_name r) g) rest
      else
        g :: continue (role_permission.role_uuid r)
               {| PublicRole.Name := role_permission.role_name r;
                  PublicRole.Permissions := [role_permission.permission_name r] |}
               rest
  end.

(** The role uuid of a run, that of its first row; neighbouring runs differ
    in it when the runs are maximal. *)
Definition uuid_of (run : list role_permission.row) : string :=
  match run with
  | r :: _ => role_permission.role_uuid r
  | [] => ""%string
  end.

Fixpoint neighbours_differ (rs : list (list role_permission.row)) : Prop :=
  match rs with
  | run :: ((next :: _) as rest) => uuid_of run <> uuid_of next /\ neighbours_differ rest
  | _ => True
  end.

(** The run starts with the current role; the group in progress, extended by
    a run. *)
Definition leads (currentRole : string) (run : list role_permission.row) : bool :=
  match run with
  | r :: _ => (role_permission.role_uuid r =? currentRole)%string
  | [] => false
  end.

Definition extend (g : PublicRole.t) (run : list role_permission.row) : PublicRole.t :=
  {| PublicRole.Name := PublicRole.Name g;
     PublicRole.Permissions :=
       (PublicRole.Permissions g ++ map role_permission.permission_name run)%list |}.

(** The order of the answer: [ORDER BY roles.name, permissions.name], strings
    compared byte by byte. *)
Definition row_leb (r1 r2 : role_permission.row) : bool :=
  match String.compare (role_permission.role_name r1) (role_permission.role_name r2) with
  | Lt => true
  | Eq => String.leb (role_permission.permission_name r1)
                     (role_permission.permission_name r2)
  | Gt => false
  end.

Definition ordered (rows : list role_permission.row) : Prop :=
  StronglySorted (fun r1 r2 => row_leb r1 r2 = true) rows.

Definition in_order (names : list string) : Prop :=
  StronglySorted (fun a b => String.leb a b = true) names.

(** A role uuid stands for one role name. *)
Definition role_keyed (rows : list role_permission.row) : Prop :=
  forall r1 r2, In r1 rows -> In r2 rows ->
    role_permission.role_uuid r1 = role_permission.role_uuid r2 ->
    role_permission.role_name r1 = role_permission.role_name r2.

End Specification.

(** * Stand-ins and fixtures

    Small executable instances of [NetMail] and [Bcrypt], and a few stores, to
    run the code on concrete inputs.  The theorems below hold for every
    instance. *)

Fixpoint split_at (c : ascii) (s : string) : option (string * string) :=
  match s with
  | EmptyString => None
  | String x rest =>
      if Ascii.eqb x c then Some (EmptyString, rest)
      else match split_at c rest with
           | Some (l, r) => Some (String x l, r)
           | None => None
           end
  end.

Definition atext (c : ascii) : bool := word c || one_of ".-+" c.

(** Bare addresses [local@domain] only. *)
Definition addr_spec (s : string) : bool :=
  match split_at "@" s with
  | Some (l, d) =>
      negb (l =? "")%string && negb (d =? "")%string && all_in atext l && all_in atext d
  | None => false
  end.

Definition addr_spec_ParseAddress (s : string) : option mail.Address * error :=
  if addr_spec s then (Some {| mail.Name := ""; mail.Addr := s |}, None)
  else (None, Some ErrMailParse).

Definition addr_spec_mail : NetMail.
Proof.
  refine {| ParseAddress := addr_spec_ParseAddress |}.
  intros s. unfold addr_spec_ParseAddress.
  destruct (addr_spec s); [left | right]; eexists; reflexivity.
Defined.

(** A hash that is its plaintext behind one byte of salt. *)
Definition tagged_generate (password : string) (cost : Z) (salt : string) : string * error :=
  if 72 <? len password then (""%string, Some ErrPasswordTooLong)
  else (String (match salt with String c _ => c | EmptyString => "$"%char end) password,
        None).

Definition tagged_compare (hash plain : string) : error :=
  match hash with
  | EmptyString => Some ErrHashTooShort
  | String _ password =>
      if (password =? plain)%string then None else Some ErrMismatchedHashAndPassword
  end.

Definition tagged_bcrypt : Bcrypt.
Proof.
  refine {| GenerateFromPassword := tagged_generate;
            CompareHashAndPassword := tagged_compare |}.
  - intros password salt Hlen. unfold tagged_generate.
    destruct (72 <? len password) eqn:E; [reflexivity | apply Z.ltb_ge in E; lia].
  - intros password salt Hlen. unfold tagged_generate.
    destruct (72 <? len password) eqn:E; [apply Z.ltb_lt in E; lia | eexists; reflexivity].
  - intros password salt hash plain. unfold tagged_generate.
    destruct (72 <? len password); [discriminate |].
    intros Heq. injection Heq as <-. cbn.
    destruct (String.eqb_spec password plain) as [-> | Hne]; split; congruence.
Defined.

(** A world around a store: the clock at [now], fixed random sources, a
    driver that opens every file, prepares every statement that compiles and
    runs every query. *)
Definition world_of (s : Store) (now : N) : World :=
  {| store := s; journal := []; clock := now;
     salts := fun n => FormatUint (N.of_nat n);
     uuids := fun n => "uuid-" ++ FormatUint (N.of_nat n);
     draws := 0; open_error := fun _ => None; prepare_error := fun _ => None;
     query_error := fun _ _ => None |}.

Definition empty_store : Store :=
  {| users_table := []; roles_table := []; user_roles_table := [];
     user_role_permissions := fun _ => ([], None);
     user_permissions := fun _ => []; can_signin_default := true |}.

Definition standard_role_store : Store :=
  {| users_table := [];
     roles_table := [{| roles.uuid := "role-1"; roles.name := "Standard" |}];
     user_roles_table := [];
     user_role_permissions := fun _ => ([], None);
     user_permissions := fun _ => [];
     can_signin_default := true |}.

Definition ann (verified : bool) : users.row :=
  {| users.uuid := "u-1"; users.first_name := "Ann"; users.last_name := "Lee";
     users.username := "ann@example.com"; users.email := "ann@example.com";
     users.password := "$old.password"; users.email_verified := verified;
     users.can_signin := true; users.updated_on := 1700000000 |}.

Definition ann_store (verified : bool) : Store :=
  {| users_table := [ann verified];
     roles_table := [{| roles.uuid := "role-1"; roles.name := "Standard" |}];
     user_roles_table := [];
     user_role_permissions := fun _ => ([], None);
     user_permissions := fun _ => [];
     can_signin_default := true |}.

Definition signup (password : string) : SignupReq.t :=
  {| SignupReq.FirstName := "Ann"; SignupReq.LastName := "Lee";
     SignupReq.Email := "ann@example.com"; SignupReq.Password := password |}.


Definition admin_read_without_uuid : list role_permission.row :=
  [{| role_permission.role_uuid := ""; role_permission.role_name := "Admin";
      role_permission.permission_uuid := "p-1";
      role_permission.permission_name := "read" |}].

(** Two roles with three permissions each, as the query orders them. *)
Definition granted (role_uuid role_name permission_uuid permission_name : string)
    : role_permission.row :=
  {| role_permission.role_uuid := role_uuid; role_permission.role_name := role_name;
     role_permission.permission_uuid := permission_uuid;
     role_permission.permission_name := permission_name |}.

Definition two_roles : list role_permission.row :=
  [granted "r-1" "Admin" "p-1" "delete"; granted "r-1" "Admin" "p-2" "read";
   granted "r-1" "Admin" "p-3" "write"; granted "r-2" "Editor" "p-4" "edit";
   granted "r-2" "Editor" "p-5" "publish"; granted "r-2" "Editor" "p-2" "read"].

Definition two_roles_store : Store :=
  {| users_table := [ann true]; roles_table := []; user_roles_table := [];
     user_role_permissions := fun _ => (two_roles, None);
     user_permissions := fun _ => [];
     can_signin_default := true |}.

(** * The rest of [userdb.go] and [auth.go], and their callers *)

(** ** The other statements of the store *)

(** A row after an UPDATE of its name columns and its verified flag: the
    other columns stay, the trigger moves the timestamp (see [advance]). *)
Definition updated_row (r : users.row) (first_name last_name username email : string)
    (email_verified : bool) : users.row :=
  {| users.uuid := users.uuid r; users.first_name := first_name;
     users.last_name := last_name; users.username := username;
     users.email := email; users.password := users.password r;
     users.email_verified := email_verified;
     users.can_signin := users.can_signin r;
     users.updated_on := advance (users.updated_on r) |}.

(** [UPDATE users SET ... WHERE users.uuid = ?]: every row with the uuid. *)
Definition update_users (uuid : string) (change : users.row -> users.row) (s : Store)
    : Store :=
  set_users s
    (map (fun r => if (users.uuid r =? uuid)%string then change r else r)
         (users_table s)).

(** Modelled from the spec: the UNIQUE constraints of [users.username] and
    [users.email] on an UPDATE (section 6; the schema is outside the two
    files).  The statement is refused when it changes a row and another
    account holds the value already. *)
Definition taken (column : users.row -> string) (value uuid : string) (s : Store)
    : bool :=
  existsb (fun r => (users.uuid r =? uuid)%string) (users_table s)
  && existsb (fun r => negb (users.uuid r =? uuid)%string && (column r =? value)%string)
             (users_table s).

Definition run_update (q : statement) (args : list string) (now : N) (s : Store)
    : Store * error :=
  match q, args with
  | SET_EMAIL_VERIFIED_SQL, [uuid] =>
      (update_users uuid
         (fun r => updated_row r (users.first_name r) (users.last_name r)
                     (users.username r) (users.email r) true) s, None)
  | SET_USERNAME_SQL, [username; uuid] =>
      if taken users.username username uuid s then
        (s, Some (ErrConstraint "users.username"))
      else
        (update_users uuid
           (fun r => updated_row r (users.first_name r) (users.last_name r)
                       username (users.email r) (users.email_verified r)) s, None)
  | SET_NAME_SQL, [first_name; last_name; uuid] =>
      (update_users uuid
         (fun r => updated_row r first_name last_name (users.username r)
                     (users.email r) (users.email_verified r)) s, None)
  | SET_INFO_SQL, [uuid; username; first_name; last_name] =>
      if taken users.username username uuid s then
        (s, Some (ErrConstraint "users.username"))
      else
        (update_users uuid
           (fun r => updated_row r first_name last_name username (users.email r)
                       (users.email_verified r)) s, None)
  | SET_EMAIL_SQL, [email; uuid] =>
      if taken users.email email uuid s then (s, Some (ErrConstraint "users.email"))
      else
        (update_users uuid
           (fun r => updated_row r (users.first_name r) (users.last_name r)
                       (users.username r) email (users.email_verified r)) s, None)
  | _, _ => run_exec q args now s
  end.

(** [stmt.Exec(args...)] for the statements of the setters. *)
Definition ExecUpdate (q : statement) (args : list string) : M error :=
  fun w => let (s, err) := run_update q args (clock w) (store w) in
           Returns err (sent (with_store w s) q args).

(** [ORDER BY roles.name]: insertion into name order, strings compared byte by
    byte. *)
Fixpoint insert_by_name (r : roles.row) (rows : list roles.row) : list roles.row :=
  match rows with
  | [] => [r]
  | x :: rest =>
      if String.leb (roles.name r) (roles.name x) then r :: x :: rest
      else x :: insert_by_name r rest
  end.

Definition order_by_name (rows : list roles.row) : list roles.row :=
  fold_right insert_by_name [] rows.

(** [FROM user_roles, roles WHERE ...] of [ROLES_SQL]: one row for each pair of
    a [user_roles] row of the user and a [roles] row with the uuid it
    grants. *)
Definition joined_roles (user_uuid : string) (s : Store) : list roles.row :=
  flat_map (fun ur =>
              if (user_roles.user_uuid ur =? user_uuid)%string then
                filter (fun r => (roles.uuid r =? user_roles.role_uuid ur)%string)
                       (roles_table s)
              else [])
           (user_roles_table s).

(** [ROLES_SQL]: the roles joined to the [user_roles] rows of the user, in
    name order. *)
Definition select_roles (user_uuid : string) (s : Store) : list roles.row :=
  order_by_name (joined_roles user_uuid s).

(** [userdb.rolesStmt.Query(uuid)]: the rows, unless the driver refuses the
    query. *)
Definition Query_roles (user_uuid : string) : M (list roles.row * error) :=
  fun w => Returns (match query_error w ROLES_SQL [user_uuid] with
                    | Some err => ([], Some err)
                    | None => (select_roles user_uuid (store w), None)
                    end)
                   (sent w ROLES_SQL [user_uuid]).



(** ** The rest of the code *)

(** Modelled from the spec: [auth.RoleMap] (declared outside the two files).
    The caller makes it, indexes it by role name and appends permission
    names: a map from string to a slice of strings.  A finite map is the
    function from a key to its entry, if any. *)
Definition RoleMap : Type := string -> option (list string).

Definition make_RoleMap : RoleMap := fun _ => None.

(** [v, ok := m[k]] and [m[k] = v]. *)
Definition map_index (m : RoleMap) (k : string) : list string * bool :=
  match m k with
  | Some v => (v, true)
  | None => ([], false)
  end.

Definition map_assign (m : RoleMap) (k : string) (v : list string) : RoleMap :=
  fun k' => if (k' =? k)%string then Some v else m k'.

Section MoreCode.
Context {net_mail : NetMail} {bcrypt : Bcrypt}.

(** The method [CheckPasswordsMatch] of [AuthUser]. *)
Definition AuthUser_CheckPasswordsMatch (user : AuthUser.t) (plainPwd : string) : error :=
  CheckPasswordsMatch (AuthUser.HashedPassword user) plainPwd.

Definition CheckEmailIsWellFormed (email : string) : option mail.Address * error :=
  if negb (MatchString USERNAME_REGEX email) then
    (None, Some (Errorf "invalid email address"))
  else
    match ParseAddress email with
    | (_, Some _) => (None, Some (Errorf "could not parse email"))
    | (address, None) => (address, None)
    end.

Definition SetIsVerified (userId : string) : M error :=
  err <- ExecUpdate SET_EMAIL_VERIFIED_SQL [userId] ;;
  match err with
  | Some err => pure (Some err)
  | None => pure None
  end.

Definition SetUsername (uuid username : string) : M error :=
  match CheckUsername username with
  | Some err => pure (Some err)
  | None =>
      err <- ExecUpdate SET_USERNAME_SQL [username; uuid] ;;
      match err with
      | Some _ => pure (Some (Errorf "could not update username"))
      | None => pure err
      end
  end.

Definition SetName (uuid firstName lastName : string) : M error :=
  match CheckName firstName with
  | Some err => pure (Some err)
  | None =>
      match CheckName lastName with
      | Some err => pure (Some err)
      | None =>
          err <- ExecUpdate SET_NAME_SQL [firstName; lastName; uuid] ;;
          match err with
          | Some _ => pure (Some (Errorf "could not update name"))
          | None => pure err
          end
      end
  end.

Definition SetUserInfo (uuid username firstName lastName : string) : M error :=
  match CheckUsername username with
  | Some err => pure (Some err)
  | None =>
      match CheckName firstName with
      | Some err => pure (Some err)
      | None =>
          match CheckName lastName with
          | Some err => pure (Some err)
          | None =>
              err <- ExecUpdate SET_INFO_SQL [uuid; username; firstName; lastName] ;;
              match err with
              | Some _ => pure (Some (Errorf "could not update user info"))
              | None => pure err
              end
          end
      end
  end.

Definition SetEmailAddress (uuid : string) (address : option mail.Address) : M error :=
  a <- deref address ;;
  err <- ExecUpdate SET_EMAIL_SQL [mail.Addr a; uuid] ;;
  match err with
  | Some _ => pure (Some (Errorf "could not update email address"))
  | None => pure err
  end.

Definition SetEmail (uuid email : string) : M error :=
  match CheckEmailIsWellFormed email with
  | (_, Some err) => pure (Some err)
  | (address, None) => SetEmailAddress uuid address
  end.

(** The [for rows.Next()] loop of [UserRoles]: each row is scanned into the
    addresses of the two fields of a fresh [role]. *)
Fixpoint scan_roles (rows : list roles.row) (roles : list Role.t)
    : option (list Role.t) * error :=
  match rows with
  | [] => (Some roles, None)
  | row :: rest =>
      match Scan (Some row) [Pointer; Pointer] with
      | ScanError err => (None, Some err)
      | Scanned r =>
          scan_roles rest
            (roles ++ [{| Role.Uuid := roles.uuid r; Role.Name := roles.name r;
                          Role.Permissions := [] |}])
      end
  end.

Definition UserRoles (user : AuthUser.t) : M (option (list Role.t) * error) :=
  answer <- Query_roles (AuthUser.Uuid user) ;;
  match answer with
  | (_, Some err) => pure (None, Some err)
  | (rows, None) => pure (scan_roles rows [])
  end.




(** [ret[ri] = role.Name] for each role, [ri] its index. *)
Fixpoint fill_names (ri : Z) (roles : list Role.t) (ret : list string)
    : M (list string) :=
  match roles with
  | [] => pure ret
  | role :: rest =>
      match index_alter (fun _ => Role.Name role) ri ret with
      | None => panic "index out of range"
      | Some ret => fill_names (ri + 1) rest ret
      end
  end.

(** [RoleList] of package [userdb]. *)
Definition RoleList (user : AuthUser.t) : M (option (list string) * error) :=
  found <- UserRoles user ;;
  match found with
  | (_, Some err) => pure (None, Some err)
  | (roles, None) =>
      roles <- deref roles ;;
      ret <- fill_names 0 roles (repeat ""%string (List.length roles)) ;;
      pure (Some ret, None)
  end.



(** The body of the loop of [PublicUserRolePermissionsList]. *)
Definition add_role (ret : RoleMap) (role : PublicRole.t) : RoleMap :=
  let '(_, ok) := map_index ret (PublicRole.Name role) in
  let ret :=
    if negb ok then map_assign ret (PublicRole.Name role) [] else ret in
  map_assign ret (PublicRole.Name role)
    (fst (map_index ret (PublicRole.Name role)) ++ PublicRole.Permissions role)%list.

(** [PublicUserRolePermissionsList] of package [userdb]. *)
Definition PublicUserRolePermissionsList (user : AuthUser.t)
    : M (option RoleMap * error) :=
  found <- PublicUserRolePermissions user ;;
  match found with
  | (_, Some err) => pure (None, Some err)
  | (roles, None) =>
      roles <- deref roles ;;
      pure (Some (fold_left add_role roles make_RoleMap), None)
  end.
End MoreCode.

(** * Specification of the rest *)

Section MoreSpecification.
Context {net_mail : NetMail} {bcrypt : Bcrypt}.

(** A call of the package, and the world it leaves; a run of calls. *)
Inductive call : Type :=
| Call_FindUserById (id : string)
| Call_FindUserByUsername (username : string)
| Call_FindUserByEmail (email : option mail.Address)
| Call_FindUserByUuid (uuid : string)
| Call_UserRoles (user : AuthUser.t)
| Call_RoleList (user : AuthUser.t)
| Call_PublicUserRolePermissions (user : AuthUser.t)
| Call_PublicUserRolePermissionsList (user : AuthUser.t)
| Call_Role (name : string)
| Call_AddUserRole (user : option AuthUser.t) (role : string)
| Call_SetIsVerified (userId : string)
| Call_SetPassword (uuid password : string)
| Call_SetUsername (uuid username : string)
| Call_SetName (uuid firstName lastName : string)
| Call_SetUserInfo (uuid username firstName lastName : string)
| Call_SetEmail (uuid email : string)
| Call_SetEmailAddress (uuid : string) (address : option mail.Address)
| Call_CreateStandardUser (user : SignupReq.t)
| Call_HashPassword (password : string)
| Call_CreateOtp (user : AuthUser.t).

Definition after (c : call) (w : World) : World :=
  match c with
  | Call_FindUserById id => final (FindUserById id w)
  | Call_FindUserByUsername username => final (FindUserByUsername username w)
  | Call_FindUserByEmail email => final (FindUserByEmail email w)
  | Call_FindUserByUuid uuid => final (FindUserByUuid uuid w)
  | Call_UserRoles user => final (UserRoles user w)
  | Call_RoleList user => final (RoleList user w)
  | Call_PublicUserRolePermissions user => final (PublicUserRolePermissions user w)
  | Call_PublicUserRolePermissionsList user =>
      final (PublicUserRolePermissionsList user w)
  | Call_Role name => final (UserDb_Role name w)
  | Call_AddUserRole user role => final (AddUserRole user role w)
  | Call_SetIsVerified userId => final (SetIsVerified userId w)
  | Call_SetPassword uuid password => final (SetPassword uuid password w)
  | Call_SetUsername uuid username => final (SetUsername uuid username w)
  | Call_SetName uuid firstName lastName => final (SetName uuid firstName lastName w)
  | Call_SetUserInfo uuid username firstName lastName =>
      final (SetUserInfo uuid username firstName lastName w)
  | Call_SetEmail uuid email => final (SetEmail uuid email w)
  | Call_SetEmailAddress uuid address => final (SetEmailAddress uuid address w)
  | Call_CreateStandardUser user => final (CreateStandardUser user w)
  | Call_HashPassword password => final (HashPassword password w)
  | Call_CreateOtp user => final (CreateOtp user w)
  end.

Fixpoint after_all (calls : list call) (w : World) : World :=
  match calls with
  | [] => w
  | c :: rest => after_all rest (after c w)
  end.

(** An account row is kept: same uuid, same [can_signin], and still verified
    if it was. *)
Definition kept (r r' : users.row) : Prop :=
  users.uuid r' = users.uuid r /\
  users.can_signin r' = users.can_signin r /\
  (users.email_verified r = true -> users.email_verified r' = true).

(** The accounts of [s] are all kept in [s'], in their order, before any new
    one. *)
Definition accounts_kept (s s' : Store) : Prop :=
  exists rows added,
    users_table s' = (rows ++ added)%list /\ Forall2 kept (users_table s) rows.


(** The user holds the role in the store. *)
Definition granted_role (s : Store) (user_uuid : string) (r : roles.row) : Prop :=
  In r (roles_table s) /\
  exists ur, In ur (user_roles_table s) /\
             user_roles.user_uuid ur = user_uuid /\
             user_roles.role_uuid ur = roles.uuid r.

(** The permissions under a role name in a list of groups, in their order. *)
Definition permissions_under (name : string) (groups : list PublicRole.t) : list string :=
  flat_map PublicRole.Permissions
    (filter (fun g => (PublicRole.Name g =? name)%string) groups).

Definition has_group (name : string) (groups : list PublicRole.t) : bool :=
  existsb (fun g => (PublicRole.Name g =? name)%string) groups.

(** The end of every setter: the error of the store is replaced by the
    message of the setter. *)
Definition written (q : statement) (args : list string) (message : string) (w : World)
    : outcome error :=
  Returns (match snd (run_update q args (clock w) (store w)) with
           | Some _ => Some (Errorf message)
           | None => None
           end)
          (sent (with_store w (fst (run_update q args (clock w) (store w)))) q args).

(** What one call may do to the store: keep the accounts, add at most one,
    and leave the roles and the grants alone. *)
Definition one_step (s s' : Store) : Prop :=
  accounts_kept s s' /\
  roles_table s' = roles_table s /\
  user_roles_table s' = user_roles_table s /\
  (List.length (users_table s') <= S (List.length (users_table s)))%nat.

(** The account is the account of the row, and the row answers the
    identifier: by its username, by its email when the identifier parses as an
    address, or by its uuid. *)
Definition account_of_row (u : AuthUser.t) (r : users.row) : Prop :=
  AuthUser.Uuid u = users.uuid r /\ AuthUser.Username u = users.username r /\
  AuthUser.Email u = users.email r /\ AuthUser.HashedPassword u = users.password r /\
  AuthUser.EmailVerified u = users.email_verified r /\
  AuthUser.CanSignIn u = users.can_signin r /\
  AuthUser.Updated u = users.updated_on r.

Definition answers (id : string) (r : users.row) : Prop :=
  (CheckUsername id = None /\ users.username r = id) \/
  (exists a, ParseAddress id = (Some a, None) /\ users.email r = mail.Addr a) \/
  users.uuid r = id.

(** No byte of the string is a space. *)
Definition no_space (s : string) : bool :=
  all_in (fun c => negb (Ascii.eqb c " ")) s.



End MoreSpecification.

(** A second account, and a store with both. *)
Definition bob : users.row :=
  {| users.uuid := "u-2"; users.first_name := "Bob"; users.last_name := "Ray";
     users.username := "bobby"; users.email := "bob@example.com";
     users.password := "$bob.password"; users.email_verified := false;
     users.can_signin := true; users.updated_on := 1700000050 |}.

Definition two_users_store : Store :=
  {| users_table := [ann false; bob];
     roles_table := [{| roles.uuid := "role-2"; roles.name := "Standard" |};
                     {| roles.uuid := "role-1"; roles.name := "Admin" |}];
     user_roles_table :=
       [{| user_roles.user_uuid := "u-1"; user_roles.role_uuid := "role-2" |};
        {| user_roles.user_uuid := "u-2"; user_roles.role_uuid := "role-2" |};
        {| user_roles.user_uuid := "u-1"; user_roles.role_uuid := "role-1" |}];
     user_role_permissions := fun _ => (two_roles, None);
     user_permissions := fun _ => [];
     can_signin_default := true |}.

(** The same world behind a driver that cannot open a file. *)
Definition closed (w : World) : World :=
  {| store := store w; journal := journal w; clock := clock w; salts := salts w;
     uuids := uuids w; draws := draws w;
     open_error := fun _ => Some (ErrDriver "unable to open database file");
     prepare_error := prepare_error w; query_error := query_error w |}.


(** A signup with an address that is no valid username. *)
Definition signup_plus : SignupReq.t :=
  {| SignupReq.FirstName := "Ann"; SignupReq.LastName := "Lee";
     SignupReq.Email := "ann+x@example.com"; SignupReq.Password := "s3cret.pass" |}.

Definition address_of (s : string) : mail.Address :=
  {| mail.Name := ""; mail.Addr := s |}.

(** * Properties *)

(** ** Validators *)

Example CheckPassword_short :
  CheckPassword "abc" = Some (Errorf "password must be at least 8 characters").
Proof. reflexivity. Qed.

Example CheckPassword_good : CheckPassword "s3cret.pass" = None.
Proof. reflexivity. Qed.

Example CheckPassword_space : CheckPassword "s3cret pass" = Some (Errorf "invalid password").
Proof. reflexivity. Qed.

Example CheckUsername_email : CheckUsername "ann@example.com" = None.
Proof. reflexivity. Qed.

Lemma eqb_empty_false (s : string) : s <> ""%string -> (s =? "")%string = false.
Proof. intros H. now apply String.eqb_neq. Qed.

(** C7, as stated, fails: the empty password is shorter than 8 bytes and
    [CheckPassword] accepts it. *)
Lemma CheckPassword_accepts_empty :
  len "" < MIN_PASSWORD_LENGTH /\ CheckPassword "" = None.
Proof. split; reflexivity. Qed.

(** C7, amended: every non-empty password of fewer than 8 bytes is refused with
    the length error, and the empty password is accepted. *)
Theorem CheckPassword_short_nonempty (p : string) :
  len p < 8 ->
  (p <> ""%string ->
   CheckPassword p = Some (Errorf "password must be at least 8 characters")) /\
  (p = ""%string -> CheckPassword p = None).
Proof.
  intros Hlen. split.
  - intros Hne. unfold CheckPassword.
    rewrite (eqb_empty_false p Hne). cbn [negb andb].
    replace (len p <? MIN_PASSWORD_LENGTH) with true
      by (symmetry; apply Z.ltb_lt; exact Hlen).
    reflexivity.
  - intros ->. reflexivity.
Qed.

Lemma CheckPassword_short_nonempty_witness :
  len "abc" < 8 /\
  CheckPassword "abc" = Some (Errorf "password must be at least 8 characters").
Proof.
  split; [reflexivity |].
  apply (CheckPassword_short_nonempty "abc"); [reflexivity | discriminate].
Defined.

(** ** Running calls *)

Ltac run :=
  unfold bind, pure, panic, QueryRow, QueryRow_roles, Exec, Must, deref;
  cbn -[Scan pointers select_user].

Lemma first_value_pointers (n column : nat) : first_value column (pointers n) = None.
Proof.
  revert column. induction n as [| n IH]; intros column; cbn; [reflexivity | apply IH].
Qed.

Lemma Scan_pointers {R} (row : option R) (n : nat) :
  Scan row (pointers n) =
  match row with
  | Some r => Scanned r
  | None => ScanError ErrNoRows
  end.
Proof.
  destruct row as [r |]; [| reflexivity].
  unfold Scan. now rewrite first_value_pointers.
Qed.

Lemma Scan_values {R} (row : option R) :
  Scan row [Value; Value] =
  ScanError (match row with Some _ => ErrScanNotPointer 0 | None => ErrNoRows end).
Proof. destruct row; reflexivity. Qed.

Section Lookups.
Context {net_mail : NetMail} {bcrypt : Bcrypt}.

Lemma FindUserByEmail_eq (address : mail.Address) (w : World) :
  FindUserByEmail (Some address) w =
  Returns (by_email (mail.Addr address)
             (select_user FIND_USER_BY_EMAIL_SQL (mail.Addr address) (store w)))
          (sent w FIND_USER_BY_EMAIL_SQL [mail.Addr address]).
Proof.
  unfold FindUserByEmail. run. rewrite Scan_pointers.
  destruct (select_user _ _ _); reflexivity.
Qed.

Lemma FindUserByEmail_nil (w : World) :
  FindUserByEmail None w = Returns (None, Some (Errorf "no email address")) w.
Proof. reflexivity. Qed.

Lemma FindUserByUuid_eq (uuid : string) (w : World) :
  FindUserByUuid uuid w =
  Returns (by_uuid uuid (select_user FIND_USER_BY_UUID_SQL uuid (store w)))
          (sent w FIND_USER_BY_UUID_SQL [uuid]).
Proof.
  unfold FindUserByUuid. run. rewrite Scan_pointers.
  destruct (select_user _ _ _); reflexivity.
Qed.

Lemma FindUserByUsername_invalid (username : string) (err : error_value) (w : World) :
  CheckUsername username = Some err ->
  FindUserByUsername username w = Returns (None, Some err) w.
Proof. intros H. unfold FindUserByUsername. now rewrite H. Qed.

Lemma FindUserByUsername_found (username : string) (r : users.row) (w : World) :
  CheckUsername username = None ->
  select_user FIND_USER_BY_USERNAME_SQL username (store w) = Some r ->
  FindUserByUsername username w =
  Returns (Some (NewAuthUser (users.uuid r) (users.first_name r) (users.last_name r)
                   username (users.email r) (users.password r)
                   (users.email_verified r) (users.can_signin r)
                   (users.updated_on r)), None)
          (sent w FIND_USER_BY_USERNAME_SQL [username]).
Proof.
  intros Hc Hs. unfold FindUserByUsername. rewrite Hc. run.
  rewrite Scan_pointers. now rewrite Hs.
Qed.

Lemma FindUserByUsername_missing (username : string) (w : World) :
  CheckUsername username = None ->
  select_user FIND_USER_BY_USERNAME_SQL username (store w) = None ->
  FindUserByUsername username w =
  match ParseAddress username with
  | (_, Some err) =>
      Returns (None, Some err) (sent w FIND_USER_BY_USERNAME_SQL [username])
  | (e, None) => FindUserByEmail e (sent w FIND_USER_BY_USERNAME_SQL [username])
  end.
Proof.
  intros Hc Hs. unfold FindUserByUsername. rewrite Hc. run.
  rewrite Scan_pointers. rewrite Hs.
  destruct (ParseAddress username) as [e [err |]]; reflexivity.
Qed.

Lemma by_email_cases address row w :
  found_or_failed (Returns (by_email address row) w).
Proof.
  exists w. destruct row; cbn; [left | right]; eexists; reflexivity.
Qed.

Lemma FindUserByEmail_cases (email : option mail.Address) (w : World) :
  found_or_failed (FindUserByEmail email w).
Proof.
  destruct email as [a |].
  - rewrite FindUserByEmail_eq. apply by_email_cases.
  - exists w. right. eexists. reflexivity.
Qed.


Lemma FindUserByUsername_cases (username : string) (w : World) :
  found_or_failed (FindUserByUsername username w).
Proof.
  destruct (CheckUsername username) as [err |] eqn:Hc.
  - rewrite (FindUserByUsername_invalid _ _ _ Hc). exists w. right. eexists. reflexivity.
  - destruct (select_user FIND_USER_BY_USERNAME_SQL username (store w)) as [r |] eqn:Hs.
    + rewrite (FindUserByUsername_found _ _ _ Hc Hs). eexists. left. eexists. reflexivity.
    + rewrite (FindUserByUsername_missing _ _ Hc Hs).
      destruct (ParseAddress username) as [e [err |]].
      * eexists. right. eexists. reflexivity.
      * apply FindUserByEmail_cases.
Qed.
End Lookups.

(** ** Identifier resolution *)

Section Resolver.
Context {net_mail : NetMail} {bcrypt : Bcrypt}.

Lemma first_success_uuid (token : string) (w : World) :
  first_success [FindUserByUuid token] w =
  Returns (by_uuid token (select_user FIND_USER_BY_UUID_SQL token (store w)))
          (sent w FIND_USER_BY_UUID_SQL [token]).
Proof.
  cbn [first_success]. unfold bind. rewrite FindUserByUuid_eq.
  destruct (select_user _ _ _); reflexivity.
Qed.

Lemma FindUserById_tail (token : string) (w : World) :
  (byUuid <- FindUserByUuid token ;;
   match byUuid with
   | (_, Some err) => pure (None, Some err)
   | (authUser, None) => pure (authUser, None)
   end) w = first_success [FindUserByUuid token] w.
Proof.
  rewrite first_success_uuid. unfold bind. rewrite FindUserByUuid_eq.
  destruct (select_user _ _ _); reflexivity.
Qed.

Lemma first_success_cons (try : strategy) (rest : list strategy) (w : World) :
  first_success (try :: rest) w =
  match try w with
  | Returns (Some account, None) w' => Returns (Some account, None) w'
  | Returns _ w' => first_success rest w'
  | Panics msg w' => Panics msg w'
  end.
Proof.
  cbn [first_success]. unfold bind.
  destruct (try w) as [[[account |] [err |]] w' | msg w']; reflexivity.
Qed.

(** C3: [FindUserById] is the resolver of section 4.4: username lookup, then
    email lookup if the token parses as an address, then uuid lookup; the
    first account found is returned, and the call fails, with not-found, only
    when all of them have failed. *)
Theorem FindUserById_first_success (token : string) (w : World) :
  FindUserById token w = ResolveIdentifier token w.
Proof.
  unfold FindUserById, ResolveIdentifier.
  change ([FindUserByUsername token] ++ ?l)%list with (FindUserByUsername token :: l).
  rewrite first_success_cons. unfold bind at 1.
  destruct (FindUserByUsername_cases token w) as [w1 [[u Hu] | [err Hu]]];
    rewrite Hu; [reflexivity |].
  destruct (ParseAddress_result token) as [[a Ha] | [e Ha]]; rewrite Ha.
  - change ([FindUserByEmail (Some a)] ++ ?l)%list with (FindUserByEmail (Some a) :: l).
    rewrite first_success_cons. unfold bind at 1.
    destruct (FindUserByEmail_cases (Some a) w1) as [w2 [[u Hu2] | [err2 Hu2]]];
      rewrite Hu2; [reflexivity |].
    apply FindUserById_tail.
  - apply FindUserById_tail.
Qed.
End Resolver.

(** ** The statements a lookup sends *)

(** C4, as stated, fails.  With no account in the store, the token
    [nobody@example.com] makes [FindUserByUsername] query the email key after
    the username key, and makes [FindUserById] send the email lookup twice. *)
Lemma FindUserById_repeats_email_lookup :
  let w := world_of empty_store 0 in
  let id := "nobody@example.com"%string in
  journal (final (@FindUserByUsername addr_spec_mail id w)) =
    [(FIND_USER_BY_USERNAME_SQL, [id]); (FIND_USER_BY_EMAIL_SQL, [id])] /\
  journal (final (@FindUserById addr_spec_mail id w)) =
    [(FIND_USER_BY_USERNAME_SQL, [id]); (FIND_USER_BY_EMAIL_SQL, [id]);
     (FIND_USER_BY_EMAIL_SQL, [id]); (FIND_USER_BY_UUID_SQL, [id])] /\
  times_sent FIND_USER_BY_EMAIL_SQL
    (journal (final (@FindUserById addr_spec_mail id w))) = 2%nat.
Proof. vm_compute. repeat split. Qed.

Section Journal.
Context {net_mail : NetMail} {bcrypt : Bcrypt}.

Lemma FindUserByUsername_journal (username : string) (w : World) :
  journal (final (FindUserByUsername username w)) =
  (journal w ++ FindUserByUsername_sends username (store w))%list /\
  store (final (FindUserByUsername username w)) = store w.
Proof.
  unfold FindUserByUsername_sends.
  destruct (CheckUsername username) as [err |] eqn:Hc.
  - rewrite (FindUserByUsername_invalid _ _ _ Hc). cbn. now rewrite app_nil_r.
  - destruct (select_user FIND_USER_BY_USERNAME_SQL username (store w)) as [r |] eqn:Hs.
    + rewrite (FindUserByUsername_found _ _ _ Hc Hs). cbn. now split.
    + rewrite (FindUserByUsername_missing _ _ Hc Hs).
      destruct (ParseAddress_result username) as [[a Ha] | [e Ha]]; rewrite Ha.
      * rewrite FindUserByEmail_eq. cbn. rewrite <- app_assoc. now split.
      * cbn. now split.
Qed.

Lemma times_sent_app (q : statement) (l1 l2 : list (statement * list string)) :
  times_sent q (l1 ++ l2) = (times_sent q l1 + times_sent q l2)%nat.
Proof. unfold times_sent. now rewrite map_app, count_occ_app. Qed.

Lemma FindUserByUsername_sends_bounds (username : string) (s : Store) :
  (times_sent FIND_USER_BY_USERNAME_SQL (FindUserByUsername_sends username s) <= 1
   /\ times_sent FIND_USER_BY_EMAIL_SQL (FindUserByUsername_sends username s) <= 1
   /\ times_sent FIND_USER_BY_UUID_SQL (FindUserByUsername_sends username s) = 0)%nat.
Proof.
  unfold FindUserByUsername_sends.
  destruct (CheckUsername username); [cbn; lia |].
  destruct (select_user _ _ _); [cbn; lia |].
  destruct (ParseAddress username) as [[a |] [e |]]; cbn; lia.
Qed.

Lemma FindUserById_uuid_step (id : string) (w : World) :
  final ((byUuid <- FindUserByUuid id ;;
          match byUuid with
          | (_, Some err) => pure (None, Some err)
          | (authUser, None) => pure (authUser, None)
          end) w) = sent w FIND_USER_BY_UUID_SQL [id].
Proof.
  unfold bind. rewrite FindUserByUuid_eq.
  destruct (select_user _ _ _); reflexivity.
Qed.

Lemma FindUserById_journal (id : string) (w : World) :
  exists entries,
    journal (final (FindUserById id w)) = (journal w ++ entries)%list /\
    (times_sent FIND_USER_BY_USERNAME_SQL entries <= 1 /\
     times_sent FIND_USER_BY_EMAIL_SQL entries <= 2 /\
     times_sent FIND_USER_BY_UUID_SQL entries <= 1)%nat.
Proof.
  destruct (FindUserByUsername_journal id w) as [Hj _].
  pose proof (FindUserByUsername_sends_bounds id (store w)) as (Bu & Be & Bi).
  set (sends := FindUserByUsername_sends id (store w)) in *.
  unfold FindUserById. unfold bind at 1.
  destruct (FindUserByUsername_cases id w) as [w1 [[u Hu] | [err Hu]]];
    rewrite Hu in *; cbn [final] in Hj.
  - exists sends. cbn [final]. split; [exact Hj | lia].
  - destruct (ParseAddress_result id) as [[a Ha] | [e Ha]]; rewrite Ha.
    + unfold bind at 1. rewrite FindUserByEmail_eq.
      destruct (select_user FIND_USER_BY_EMAIL_SQL (mail.Addr a) (store w1)).
      * exists (sends ++ [(FIND_USER_BY_EMAIL_SQL, [mail.Addr a])])%list.
        cbn. rewrite Hj, <- app_assoc. split; [reflexivity |].
        rewrite !times_sent_app. cbn. lia.
      * cbn [by_email]. rewrite FindUserById_uuid_step.
        exists (sends ++ [(FIND_USER_BY_EMAIL_SQL, [mail.Addr a]);
                          (FIND_USER_BY_UUID_SQL, [id])])%list.
        cbn. rewrite Hj, <- !app_assoc. split; [reflexivity |].
        rewrite !times_sent_app. cbn. lia.
    + rewrite FindUserById_uuid_step.
      exists (sends ++ [(FIND_USER_BY_UUID_SQL, [id])])%list.
      cbn. rewrite Hj, <- app_assoc. split; [reflexivity |].
      rewrite !times_sent_app. cbn. lia.
Qed.

(** C4, amended: [FindUserByEmail] and [FindUserByUuid] send exactly one
    lookup, by their own key.  [FindUserByUsername] checks the syntax of the
    name first and, on a malformed name, fails without touching the store;
    otherwise it sends the username lookup once and, when no row has the
    username and the name parses as an address, the email lookup once.
    During a resolution the username and the uuid lookup are sent at most
    once and the email lookup at most twice. *)
Theorem lookups_sent (w : World) :
  (forall username,
     journal (final (FindUserByUsername username w)) =
       (journal w ++ FindUserByUsername_sends username (store w))%list /\
     match CheckUsername username with
     | Some err => FindUserByUsername username w = Returns (None, Some err) w
     | None => True
     end) /\
  (forall address,
     final (FindUserByEmail (Some address) w) =
     sent w FIND_USER_BY_EMAIL_SQL [mail.Addr address]) /\
  (forall uuid,
     final (FindUserByUuid uuid w) = sent w FIND_USER_BY_UUID_SQL [uuid]) /\
  (forall id, exists entries,
     journal (final (FindUserById id w)) = (journal w ++ entries)%list /\
     (times_sent FIND_USER_BY_USERNAME_SQL entries <= 1 /\
      times_sent FIND_USER_BY_EMAIL_SQL entries <= 2 /\
      times_sent FIND_USER_BY_UUID_SQL entries <= 1)%nat).
Proof.
  split; [| split; [| split]].
  - intros username. split; [apply FindUserByUsername_journal |].
    destruct (CheckUsername username) as [err |] eqn:Hc; [| exact I].
    now apply FindUserByUsername_invalid.
  - intros address. now rewrite FindUserByEmail_eq.
  - intros uuid. now rewrite FindUserByUuid_eq.
  - intros id. apply FindUserById_journal.
Qed.
End Journal.

(** ** Roles *)

Lemma UserDb_Role_eq (name : string) (w : World) :
  UserDb_Role name w =
  Returns (None,
           Some (match find (fun r => (roles.name r =? name)%string)
                            (roles_table (store w)) with
                 | Some _ => ErrScanNotPointer 0
                 | None => ErrNoRows
                 end))
          (sent w ROLE_BY_NAME_SQL [name]).
Proof.
  unfold UserDb_Role. run. rewrite Scan_values. reflexivity.
Qed.

Lemma AddUserRole_eq (user : option AuthUser.t) (role : string) (w : World) :
  AddUserRole user role w =
  Returns (Some (Errorf (role ++ " role not available")))
          (sent w ROLE_BY_NAME_SQL [role]).
Proof.
  unfold AddUserRole. unfold bind at 1. rewrite UserDb_Role_eq. reflexivity.
Qed.

(** C10: [Role] returns an error for every name and never a role: for a name
    the store has, the scan fails on its first destination, which is not a
    pointer.  So [AddUserRole] fails with "role not available" for every account
    and every role name, and writes nothing. *)
Theorem Role_never_found (name : string) (user : option AuthUser.t) (w : World) :
  (exists err,
     UserDb_Role name w = Returns (None, Some err) (sent w ROLE_BY_NAME_SQL [name]) /\
     (In name (map roles.name (roles_table (store w))) -> err = ErrScanNotPointer 0)) /\
  AddUserRole user name w =
    Returns (Some (Errorf (name ++ " role not available")))
            (sent w ROLE_BY_NAME_SQL [name]) /\
  store (sent w ROLE_BY_NAME_SQL [name]) = store w.
Proof.
  split; [| split; [apply AddUserRole_eq | reflexivity]].
  rewrite UserDb_Role_eq. eexists. split; [reflexivity |].
  intros Hin. apply in_map_iff in Hin as (r & Hname & Hr).
  destruct (find _ _) eqn:Hfind; [reflexivity |].
  exfalso. apply (find_none _ _ Hfind) in Hr.
  rewrite Hname, String.eqb_refl in Hr. discriminate.
Qed.

Lemma Role_never_found_witness :
  In "Standard"%string (map roles.name (roles_table standard_role_store)) /\
  UserDb_Role "Standard" (world_of standard_role_store 0) =
    Returns (None, Some (ErrScanNotPointer 0))
            (sent (world_of standard_role_store 0) ROLE_BY_NAME_SQL ["Standard"%string]).
Proof.
  assert (Hin : In "Standard"%string (map roles.name (roles_table standard_role_store)))
    by (left; reflexivity).
  split; [exact Hin |].
  destruct (Role_never_found "Standard" None (world_of standard_role_store 0))
    as [[err [Heq Herr]] _].
  rewrite Heq, (Herr Hin). reflexivity.
Defined.

(** ** Passwords and one-time codes *)

Section Credentials.
Context {net_mail : NetMail} {bcrypt : Bcrypt}.

Lemma HashPassword_eq (password : string) (w : World) :
  HashPassword password w =
  match GenerateFromPassword password DefaultCost (salts w (draws w)) with
  | (_, Some _) => Panics "sys.Must" (drawn w)
  | (hash, None) => Returns hash (drawn w)
  end.
Proof.
  unfold HashPassword, bind, fresh_salt, Must.
  destruct (GenerateFromPassword _ _ _) as [hash [err |]]; reflexivity.
Qed.

Lemma SetPassword_invalid (uuid password : string) (err : error_value) (w : World) :
  CheckPassword password = Some err ->
  SetPassword uuid password w = Returns (Some err) w.
Proof. intros H. unfold SetPassword. now rewrite H. Qed.

Lemma SetPassword_eq (uuid password : string) (w : World) :
  CheckPassword password = None ->
  SetPassword uuid password w =
  match GenerateFromPassword password DefaultCost (salts w (draws w)) with
  | (_, Some _) => Panics "sys.Must" (drawn w)
  | (hash, None) => Returns None (password_written hash uuid w)
  end.
Proof.
  intros H. unfold SetPassword. rewrite H. unfold bind at 1.
  rewrite HashPassword_eq.
  destruct (GenerateFromPassword _ _ _) as [hash [err |]]; reflexivity.
Qed.
End Credentials.

Example FormatUint_seconds : FormatUint 1700000000 = "1700000000"%string.
Proof. reflexivity. Qed.

Lemma FormatUint_inj (m n : N) : FormatUint m = FormatUint n -> m = n.
Proof.
  unfold FormatUint. intros H.
  apply DecimalN.Unsigned.to_uint_inj.
  apply (f_equal NilEmpty.uint_of_string) in H.
  rewrite !NilEmpty.usu in H. congruence.
Qed.

(** The row with a uuid after a password write: the old row with the new hash
    and the advanced timestamp. *)
Lemma select_after_set_password (hash uuid : string) (s : Store) :
  select_user FIND_USER_BY_UUID_SQL uuid (set_password hash uuid s) =
  match select_user FIND_USER_BY_UUID_SQL uuid s with
  | Some r =>
      Some {| users.uuid := users.uuid r; users.first_name := users.first_name r;
              users.last_name := users.last_name r; users.username := users.username r;
              users.email := users.email r; users.password := hash;
              users.email_verified := users.email_verified r;
              users.can_signin := users.can_signin r;
              users.updated_on := advance (users.updated_on r) |}
  | None => None
  end.
Proof.
  unfold select_user, set_password. cbn [users_table set_users].
  induction (users_table s) as [| r rows IH]; [reflexivity |].
  cbn [map find].
  destruct (users.uuid r =? uuid)%string eqn:E.
  - cbn [users.uuid]. now rewrite E.
  - now rewrite E.
Qed.

Section OneTimeCodes.
Context {net_mail : NetMail} {bcrypt : Bcrypt}.

Lemma CheckOtpValid_other_time (user : AuthUser.t) (salt otp : string) (t : N) :
  GenerateFromPassword (FormatUint t) DefaultCost salt = (otp, None) ->
  t <> AuthUser.Updated user ->
  CheckOtpValid user otp = Some (Errorf "one time code has expired").
Proof.
  intros Hgen Hne. unfold CheckOtpValid, CheckPasswordsMatch.
  destruct (CompareHashAndPassword otp (FormatUint (AuthUser.Updated user)))
    as [err |] eqn:Hcmp; [reflexivity |].
  apply (compare_generated _ _ _ _ Hgen) in Hcmp.
  apply FormatUint_inj in Hcmp. contradiction.
Qed.

(** C2: for an account of the store, a [SetPassword] that succeeds leaves the
    account with a later timestamp, and every one-time code made by
    [CreateOtp] from the account as it was before the call is refused by
    [CheckOtpValid] on the account as it is after. *)
Theorem SetPassword_expires_otp
    (uuid password otp : string) (before after : AuthUser.t)
    (w w1 w2 w3 w4 w5 : World) :
  FindUserByUuid uuid w = Returns (Some before, None) w1 ->
  CreateOtp before w2 = Returns otp w3 ->
  SetPassword uuid password w = Returns None w4 ->
  FindUserByUuid uuid w4 = Returns (Some after, None) w5 ->
  (AuthUser.Updated before < AuthUser.Updated after)%N /\
  CheckOtpValid after otp = Some (Errorf "one time code has expired").
Proof.
  intros Hbefore Hotp Hset Hafter.
  rewrite FindUserByUuid_eq in Hbefore.
  destruct (select_user FIND_USER_BY_UUID_SQL uuid (store w)) as [r |] eqn:Hrow;
    [| discriminate].
  injection Hbefore as Hb _.
  destruct (CheckPassword password) as [err |] eqn:Hcheck.
  { rewrite (SetPassword_invalid _ _ _ _ Hcheck) in Hset. discriminate. }
  rewrite (SetPassword_eq _ _ _ Hcheck) in Hset.
  destruct (GenerateFromPassword password DefaultCost (salts w (draws w)))
    as [hash [err |]] eqn:Hhash; [discriminate |].
  injection Hset as Hw4.
  rewrite FindUserByUuid_eq in Hafter. rewrite <- Hw4 in Hafter.
  cbn [password_written store sent with_store] in Hafter.
  rewrite select_after_set_password, Hrow in Hafter.
  injection Hafter as Ha _.
  assert (Hupd : AuthUser.Updated after = advance (AuthUser.Updated before)).
  { rewrite <- Ha, <- Hb. reflexivity. }
  split.
  - rewrite Hupd. unfold advance. lia.
  - unfold CreateOtp in Hotp. rewrite HashPassword_eq in Hotp.
    destruct (GenerateFromPassword (FormatUint (AuthUser.Updated before)) DefaultCost
                (salts w2 (draws w2))) as [h [err |]] eqn:Hgen; [discriminate |].
    injection Hotp as Hh _. subst h.
    apply (CheckOtpValid_other_time _ _ _ _ Hgen).
    rewrite Hupd. unfold advance. lia.
Qed.
End OneTimeCodes.

Lemma SetPassword_expires_otp_witness :
  exists before after otp,
    (AuthUser.Updated before = 1700000000)%N /\
    (AuthUser.Updated before < AuthUser.Updated after)%N /\
    @CheckOtpValid tagged_bcrypt after otp = Some (Errorf "one time code has expired").
Proof.
  pose (w := world_of (ann_store false) 1700000100).
  exists (NewAuthUser "u-1" "Ann" "Lee" "ann@example.com" "ann@example.com"
            "$old.password" false true 1700000000).
  do 2 eexists. split; [reflexivity |].
  eapply (@SetPassword_expires_otp tagged_bcrypt "u-1" "n3w.password" _ _ _ w _ w _ _ _);
    reflexivity.
Defined.

(** ** Registration *)

Section Registration.
Context {net_mail : NetMail} {bcrypt : Bcrypt}.

Lemma CreateStandardUser_invalid_password (user : SignupReq.t) (err : error_value)
    (w : World) :
  CheckPassword (SignupReq.Password user) = Some err ->
  CreateStandardUser user w = Returns (None, Some err) w.
Proof. intros H. unfold CreateStandardUser. now rewrite H. Qed.

Lemma CreateStandardUser_unparsed (user : SignupReq.t) (email : option mail.Address)
    (err : error_value) (w : World) :
  CheckPassword (SignupReq.Password user) = None ->
  ParseAddress (SignupReq.Email user) = (email, Some err) ->
  CreateStandardUser user w = Returns (None, Some err) w.
Proof. intros H1 H2. unfold CreateStandardUser. now rewrite H1, H2. Qed.

(** The email belongs to an account. *)
Lemma CreateStandardUser_found (user : SignupReq.t) (a : mail.Address)
    (r : users.row) (w : World) :
  CheckPassword (SignupReq.Password user) = None ->
  ParseAddress (SignupReq.Email user) = (Some a, None) ->
  select_user FIND_USER_BY_EMAIL_SQL (mail.Addr a) (store w) = Some r ->
  CreateStandardUser user w =
  let w1 := sent w FIND_USER_BY_EMAIL_SQL [mail.Addr a] in
  if users.email_verified r then Returns (None, Some already_registered) w1
  else
    match GenerateFromPassword (SignupReq.Password user) DefaultCost
            (salts w (draws w)) with
    | (_, Some _) => Panics "sys.Must" (drawn w1)
    | (hash, None) =>
        Returns (Some (account_of (mail.Addr a) r), None)
                (sent (password_written hash (users.uuid r) w1)
                      ROLE_BY_NAME_SQL [STANDARD_ROLE])
    end.
Proof.
  intros Hpw Hparse Hrow. unfold CreateStandardUser.
  rewrite Hpw, Hparse. unfold bind at 1.
  rewrite FindUserByEmail_eq, Hrow. cbn [by_email].
  unfold bind at 1, deref, pure at 1. cbn [AuthUser.EmailVerified NewAuthUser].
  destruct (users.email_verified r) eqn:Hv; [reflexivity |].
  unfold bind at 1. rewrite (SetPassword_eq _ _ _ Hpw).
  cbn [salts draws sent].
  destruct (GenerateFromPassword _ _ _) as [hash [err |]]; [reflexivity |].
  unfold bind at 1. rewrite AddUserRole_eq.
  unfold account_of. rewrite Hv. reflexivity.
Qed.

(** The email belongs to no account. *)
Lemma CreateStandardUser_new (user : SignupReq.t) (a : mail.Address) (w : World) :
  CheckPassword (SignupReq.Password user) = None ->
  ParseAddress (SignupReq.Email user) = (Some a, None) ->
  select_user FIND_USER_BY_EMAIL_SQL (mail.Addr a) (store w) = None ->
  CreateStandardUser user w =
  let w1 := drawn (sent w FIND_USER_BY_EMAIL_SQL [mail.Addr a]) in
  match GenerateFromPassword (SignupReq.Password user) DefaultCost
          (salts w (S (draws w))) with
  | (_, Some _) => Panics "sys.Must" (drawn w1)
  | (hash, None) =>
      let args := [uuids w (draws w); SignupReq.FirstName user;
                   SignupReq.LastName user; mail.Addr a; mail.Addr a; hash] in
      match insert_user (uuids w (draws w)) (SignupReq.FirstName user)
              (SignupReq.LastName user) (mail.Addr a) (mail.Addr a) hash
              (clock w) (store w) with
      | (s, Some err) =>
          Returns (None, Some err) (sent (with_store (drawn w1) s) CREATE_USER_SQL args)
      | (s, None) =>
          let w3 := sent (sent (with_store (drawn w1) s) CREATE_USER_SQL args)
                         FIND_USER_BY_EMAIL_SQL [mail.Addr a] in
          match select_user FIND_USER_BY_EMAIL_SQL (mail.Addr a) s with
          | None => Returns (None, Some ErrNoRows) w3
          | Some r =>
              Returns (Some (account_of (mail.Addr a) r), None)
                      (sent w3 ROLE_BY_NAME_SQL [STANDARD_ROLE])
          end
      end
  end.
Proof.
  intros Hpw Hparse Hrow. unfold CreateStandardUser.
  rewrite Hpw, Hparse. unfold bind at 1.
  rewrite FindUserByEmail_eq, Hrow. cbn [by_email].
  unfold bind at 1, Uuid. unfold bind at 1, deref, pure at 1.
  unfold bind at 1, SignupReq_HashedPassword. rewrite HashPassword_eq.
  cbn [salts draws sent drawn].
  destruct (GenerateFromPassword _ _ _) as [hash [err |]]; [reflexivity |].
  unfold bind at 1, Exec. cbn [clock store sent drawn run_exec].
  destruct (insert_user _ _ _ _ _ _ _ _) as [s [err |]]; [reflexivity |].
  unfold bind at 1. rewrite FindUserByEmail_eq.
  cbn [store sent with_store].
  destruct (select_user FIND_USER_BY_EMAIL_SQL (mail.Addr a) s) as [r |];
    [| reflexivity].
  cbn [by_email]. unfold bind at 1. rewrite AddUserRole_eq. reflexivity.
Qed.
Lemma insert_user_user_roles (uuid first_name last_name username email password : string)
    (now : N) (s : Store) :
  user_roles_table
    (fst (insert_user uuid first_name last_name username email password now s)) =
  user_roles_table s.
Proof.
  unfold insert_user.
  repeat match goal with |- context [if ?b then _ else _] => destruct b end;
    reflexivity.
Qed.

(** No registration adds a row to [user_roles]. *)
Lemma CreateStandardUser_user_roles (user : SignupReq.t) (w : World) :
  user_roles_table (store (final (CreateStandardUser user w))) =
  user_roles_table (store w).
Proof.
  destruct (CheckPassword (SignupReq.Password user)) as [err |] eqn:Hpw.
  { now rewrite (CreateStandardUser_invalid_password _ _ _ Hpw). }
  destruct (ParseAddress_result (SignupReq.Email user)) as [[a Ha] | [e Ha]].
  2: { now rewrite (CreateStandardUser_unparsed _ _ _ _ Hpw Ha). }
  destruct (select_user FIND_USER_BY_EMAIL_SQL (mail.Addr a) (store w))
    as [r |] eqn:Hrow.
  - rewrite (CreateStandardUser_found _ _ _ _ Hpw Ha Hrow). cbv zeta.
    destruct (users.email_verified r); [reflexivity |].
    destruct (GenerateFromPassword _ _ _) as [hash [err |]]; reflexivity.
  - rewrite (CreateStandardUser_new _ _ _ Hpw Ha Hrow). cbv zeta.
    destruct (GenerateFromPassword _ _ _) as [hash [err |]]; [reflexivity |].
    pose proof (insert_user_user_roles (uuids w (draws w)) (SignupReq.FirstName user)
                  (SignupReq.LastName user) (mail.Addr a) (mail.Addr a) hash
                  (clock w) (store w)) as Hins.
    destruct (insert_user _ _ _ _ _ _ _ _) as [s [err |]]; cbn [fst] in Hins;
      [exact Hins |].
    destruct (select_user _ _ s); exact Hins.
Qed.

End Registration.

Lemma journal_sent (w : World) (q : statement) (args : list string) :
  journal (sent w q args) = (journal w ++ [(q, args)])%list.
Proof. reflexivity. Qed.

(** C1 on the code, at a signup with a new email and a valid password, in a
    store that has the Standard role: one account is created, not verified,
    and the call returns it with a nil error, but [user_roles] stays empty. *)
Lemma CreateStandardUser_grants_no_role :
  let w := world_of standard_role_store 1700000000 in
  exists u after,
    @CreateStandardUser addr_spec_mail tagged_bcrypt (signup "s3cret.pass") w =
      Returns (Some u, None) after /\
    map users.email (users_table (store after)) = ["ann@example.com"%string] /\
    map users.email_verified (users_table (store after)) = [false] /\
    AuthUser.EmailVerified u = false /\
    map roles.name (roles_table (store after)) = ["Standard"%string] /\
    user_roles_table (store after) = [].
Proof. do 2 eexists. vm_compute. repeat split. Qed.

(** C5, as stated, fails.  At the same signup the grant is attempted (the role
    query is the last statement sent) and fails, as it does in every world,
    while the call returns the account and a nil error: nothing of the
    failure reaches the caller. *)
Lemma CreateStandardUser_hides_grant_failure :
  let w := world_of standard_role_store 1700000000 in
  exists u after,
    @CreateStandardUser addr_spec_mail tagged_bcrypt (signup "s3cret.pass") w =
      Returns (Some u, None) after /\
    last (journal after) (ROLES_SQL, []) = (ROLE_BY_NAME_SQL, [STANDARD_ROLE]) /\
    (forall before,
       AddUserRole (Some u) STANDARD_ROLE before =
       Returns (Some (Errorf "Standard role not available"))
               (sent before ROLE_BY_NAME_SQL [STANDARD_ROLE])).
Proof.
  do 2 eexists. split; [vm_compute; reflexivity |].
  split; [reflexivity | intros before; apply AddUserRole_eq].
Qed.

(** The same email, not verified yet: the account is returned as it was read,
    the store has the new hash and a later timestamp, and no role is
    granted. *)
Example CreateStandardUser_reissues :
  let w := world_of (ann_store false) 1700000100 in
  exists u after,
    @CreateStandardUser addr_spec_mail tagged_bcrypt (signup "s3cret.pass") w =
      Returns (Some u, None) after /\
    AuthUser.HashedPassword u = "$old.password"%string /\
    map users.password (users_table (store after)) = ["0s3cret.pass"%string] /\
    map users.updated_on (users_table (store after)) = [1700000001%N] /\
    user_roles_table (store after) = [].
Proof. do 2 eexists. vm_compute. repeat split. Qed.

(** C6, as stated, fails.  The email belongs to a verified account, the
    password is too short: the call fails with the length error, not with
    already-registered. *)
Lemma CreateStandardUser_checks_password_first :
  let w := world_of (ann_store true) 1700000100 in
  select_user FIND_USER_BY_EMAIL_SQL "ann@example.com" (store w) = Some (ann true) /\
  users.email_verified (ann true) = true /\
  @CreateStandardUser addr_spec_mail tagged_bcrypt (signup "short") w =
    Returns (None, Some (Errorf "password must be at least 8 characters")) w /\
  Errorf "password must be at least 8 characters" <> already_registered.
Proof. vm_compute. repeat split. discriminate. Qed.

Section RegistrationClaims.
Context {net_mail : NetMail} {bcrypt : Bcrypt}.

(** C6, amended: when the email of the request belongs to an account that is
    verified and the password passes [CheckPassword], the call fails with
    already-registered; when the password does not pass, it fails with the
    error of [CheckPassword].  Either way the store is left as it was. *)
Theorem CreateStandardUser_rejects_verified (user : SignupReq.t)
    (a : mail.Address) (r : users.row) (w : World) :
  ParseAddress (SignupReq.Email user) = (Some a, None) ->
  select_user FIND_USER_BY_EMAIL_SQL (mail.Addr a) (store w) = Some r ->
  users.email_verified r = true ->
  match CheckPassword (SignupReq.Password user) with
  | None =>
      CreateStandardUser user w =
      Returns (None, Some already_registered)
              (sent w FIND_USER_BY_EMAIL_SQL [mail.Addr a])
  | Some err => CreateStandardUser user w = Returns (None, Some err) w
  end /\
  store (final (CreateStandardUser user w)) = store w.
Proof.
  intros Hparse Hrow Hv.
  destruct (CheckPassword (SignupReq.Password user)) as [err |] eqn:Hpw.
  - rewrite (CreateStandardUser_invalid_password _ _ _ Hpw). now split.
  - rewrite (CreateStandardUser_found _ _ _ _ Hpw Hparse Hrow).
    cbv zeta. rewrite Hv. now split.
Qed.
End RegistrationClaims.

Lemma CreateStandardUser_rejects_verified_witness :
  let w := world_of (ann_store true) 1700000100 in
  @CreateStandardUser addr_spec_mail tagged_bcrypt (signup "s3cret.pass") w =
    Returns (None, Some already_registered)
            (sent w FIND_USER_BY_EMAIL_SQL ["ann@example.com"%string]) /\
  store (final (@CreateStandardUser addr_spec_mail tagged_bcrypt
                  (signup "s3cret.pass") w)) = store w.
Proof.
  exact (@CreateStandardUser_rejects_verified addr_spec_mail tagged_bcrypt
           (signup "s3cret.pass")
           {| mail.Name := ""; mail.Addr := "ann@example.com" |} (ann true)
           (world_of (ann_store true) 1700000100)
           eq_refl eq_refl eq_refl).
Defined.

Section GrantFailure.
Context {net_mail : NetMail} {bcrypt : Bcrypt}.

Ltac no_role_query H :=
  cbv zeta in H;
  cbn [final journal sent drawn with_store password_written] in H;
  rewrite ?times_sent_app in H; cbn in H; lia.

(** C5, amended: whenever a registration reaches the grant of the Standard
    role (the call sends the role query), the grant fails and the call
    still returns the account, with a nil error: the failure does not fail
    the registration, and it is dropped, not reported. *)
Theorem CreateStandardUser_drops_grant_error (user : SignupReq.t) (w : World) :
  (times_sent ROLE_BY_NAME_SQL (journal w) <
   times_sent ROLE_BY_NAME_SQL (journal (final (CreateStandardUser user w))))%nat ->
  exists u before,
    CreateStandardUser user w =
      Returns (Some u, None) (sent before ROLE_BY_NAME_SQL [STANDARD_ROLE]) /\
    AddUserRole (Some u) STANDARD_ROLE before =
      Returns (Some (Errorf "Standard role not available"))
              (sent before ROLE_BY_NAME_SQL [STANDARD_ROLE]).
Proof.
  intros Hsent.
  destruct (CheckPassword (SignupReq.Password user)) as [err |] eqn:Hpw.
  { rewrite (CreateStandardUser_invalid_password _ _ _ Hpw) in Hsent.
    cbn in Hsent. lia. }
  destruct (ParseAddress_result (SignupReq.Email user)) as [[a Ha] | [e Ha]].
  2: { rewrite (CreateStandardUser_unparsed _ _ _ _ Hpw Ha) in Hsent.
       cbn in Hsent. lia. }
  destruct (select_user FIND_USER_BY_EMAIL_SQL (mail.Addr a) (store w))
    as [r |] eqn:Hrow.
  - rewrite (CreateStandardUser_found _ _ _ _ Hpw Ha Hrow) in *.
    destruct (users.email_verified r); [no_role_query Hsent |].
    destruct (GenerateFromPassword _ _ _) as [hash [err |]];
      [no_role_query Hsent |].
    do 2 eexists. split; [reflexivity | apply AddUserRole_eq].
  - rewrite (CreateStandardUser_new _ _ _ Hpw Ha Hrow) in *.
    destruct (GenerateFromPassword _ _ _) as [hash [err |]];
      [no_role_query Hsent |].
    destruct (insert_user _ _ _ _ _ _ _ _) as [s [err |]];
      [no_role_query Hsent |].
    destruct (select_user FIND_USER_BY_EMAIL_SQL (mail.Addr a) s) as [r |];
      [| no_role_query Hsent].
    do 2 eexists. split; [reflexivity | apply AddUserRole_eq].
Qed.
End GrantFailure.

Lemma CreateStandardUser_drops_grant_error_witness :
  let w := world_of standard_role_store 1700000000 in
  exists u before,
    @CreateStandardUser addr_spec_mail tagged_bcrypt (signup "s3cret.pass") w =
      Returns (Some u, None) (sent before ROLE_BY_NAME_SQL [STANDARD_ROLE]) /\
    AddUserRole (Some u) STANDARD_ROLE before =
      Returns (Some (Errorf "Standard role not available"))
              (sent before ROLE_BY_NAME_SQL [STANDARD_ROLE]).
Proof.
  apply (@CreateStandardUser_drops_grant_error addr_spec_mail tagged_bcrypt
           (signup "s3cret.pass") (world_of standard_role_store 1700000000)).
  vm_compute. lia.
Defined.

(** ** Panics *)






Section Failures.
Context {net_mail : NetMail} {bcrypt : Bcrypt}.


Lemma found_or_failed_no_panic (o : outcome (option AuthUser.t * error)) :
  found_or_failed o -> ~ panics o.
Proof. intros [w' [[u ->] | [err ->]]]; cbn; auto. Qed.





End Failures.

(** ** Roles and permissions for display *)

(** The loop of [PublicUserRolePermissions], on the rows of an answer.  When
    the first row has the empty string for role uuid, it equals the initial
    [currentRole], no group is opened, and the index [len(ret) - 1] is -1:
    the loop panics. *)
Example role_permissions_loop_panics_on_empty_uuid (w : World) :
  runs admin_read_without_uuid = [admin_read_without_uuid] /\
  role_permissions_loop admin_read_without_uuid "" [] w = Panics "index out of range" w.
Proof. split; reflexivity. Qed.

Lemma alter_at_last {A} (f : A -> A) (l : list A) (x : A) :
  alter_at f (List.length l) (l ++ [x]) = (l ++ [f x])%list.
Proof. induction l as [| y l IH]; cbn; [reflexivity | now rewrite IH]. Qed.

Lemma index_alter_last {A} (f : A -> A) (l : list A) (x : A) :
  index_alter f (Z.of_nat (List.length (l ++ [x])) - 1) (l ++ [x]) = Some (l ++ [f x])%list.
Proof.
  unfold index_alter. rewrite length_app. cbn [List.length].
  replace (Z.of_nat (List.length l + 1) - 1) with (Z.of_nat (List.length l)) by lia.
  destruct (Z.of_nat (List.length l) <? 0) eqn:E1; [apply Z.ltb_lt in E1; lia |].
  destruct (Z.of_nat (List.length l + 1) <=? Z.of_nat (List.length l)) eqn:E2;
    [apply Z.leb_le in E2; lia |].
  cbn [orb]. now rewrite Nat2Z.id, alter_at_last.
Qed.

Lemma role_permissions_loop_continue (rows : list role_permission.row) :
  forall (currentRole : string) (init : list PublicRole.t) (g : PublicRole.t) (w : World),
    role_permissions_loop rows currentRole (init ++ [g]) w =
    Returns (init ++ continue currentRole g rows)%list w.
Proof.
  induction rows as [| r rest IH]; intros currentRole init g w; [reflexivity |].
  cbn [role_permissions_loop continue].
  destruct (role_permission.role_uuid r =? currentRole)%string; cbn [negb].
  - rewrite index_alter_last. apply IH.
  - rewrite index_alter_last. rewrite IH. now rewrite <- app_assoc.
Qed.

Lemma runs_nonempty (rows : list role_permission.row) :
  Forall (fun run => run <> []) (runs rows).
Proof.
  induction rows as [| r rest IH]; cbn [runs]; [constructor |].
  destruct (runs rest) as [| [| r' run] others].
  - repeat constructor. discriminate.
  - repeat constructor. discriminate.
  - inversion IH as [| ? ? H1 H2]; subst.
    destruct (_ =? _)%string; repeat constructor; try discriminate; assumption.
Qed.

Lemma runs_concat (rows : list role_permission.row) : concat (runs rows) = rows.
Proof.
  induction rows as [| r rest IH]; cbn [runs]; [reflexivity |].
  pose proof (runs_nonempty rest) as Hne.
  destruct (runs rest) as [| [| r' run] others].
  - cbn in *. now subst.
  - inversion Hne as [| ? ? H1 H2]; congruence.
  - destruct (_ =? _)%string; cbn in *; now rewrite IH.
Qed.

Lemma runs_maximal (rows : list role_permission.row) :
  Forall (fun run => Forall (fun r => role_permission.role_uuid r = uuid_of run) run)
         (runs rows) /\
  neighbours_differ (runs rows).
Proof.
  induction rows as [| r rest [IH1 IH2]]; cbn [runs]; [split; [constructor | exact I] |].
  destruct (runs rest) as [| [| r' run] others] eqn:E.
  - split; [repeat constructor | exact I].
  - split; [repeat constructor | exact I].
  - inversion IH1 as [| ? ? H1 H2]; subst.
    destruct (String.eqb_spec (role_permission.role_uuid r)
                              (role_permission.role_uuid r')) as [Heq | Hne].
    + split.
      * constructor; [| assumption].
        constructor; [reflexivity |]. cbn [uuid_of] in *. now rewrite Heq.
      * destruct others as [| next others']; [exact I |].
        cbn [neighbours_differ uuid_of] in *. now rewrite Heq.
    + split.
      * constructor; [repeat constructor |]. constructor; assumption.
      * cbn [neighbours_differ uuid_of]. split; [exact Hne | exact IH2].
Qed.

Lemma continue_runs (rows : list role_permission.row) :
  forall (currentRole : string) (g : PublicRole.t),
    continue currentRole g rows =
    match runs rows with
    | [] => [g]
    | run :: others =>
        if leads currentRole run then extend g run :: map group_of others
        else g :: map group_of (run :: others)
    end.
Proof.
  induction rows as [| r rest IH]; intros currentRole g; [reflexivity |].
  cbn [continue runs].
  pose proof (runs_nonempty rest) as Hne.
  destruct (role_permission.role_uuid r =? currentRole)%string eqn:Hcur.
  - rewrite IH. apply String.eqb_eq in Hcur.
    destruct (runs rest) as [| [| r' run] others].
    + cbn [leads]. rewrite Hcur, String.eqb_refl. reflexivity.
    + inversion Hne; congruence.
    + cbn [leads]. rewrite <- Hcur.
      rewrite (String.eqb_sym (role_permission.role_uuid r')).
      destruct (role_permission.role_uuid r =? role_permission.role_uuid r')%string;
        cbn [leads]; rewrite String.eqb_refl.
      * unfold extend, append_permission. cbn. now rewrite <- app_assoc.
      * reflexivity.
  - rewrite IH.
    destruct (runs rest) as [| [| r' run] others].
    + cbn [leads]. now rewrite Hcur.
    + inversion Hne; congruence.
    + cbn [leads]. rewrite (String.eqb_sym (role_permission.role_uuid r')).
      destruct (role_permission.role_uuid r =? role_permission.role_uuid r')%string;
        cbn [leads]; rewrite Hcur; reflexivity.
Qed.

Lemma continue_first_run (r : role_permission.row) (rest : list role_permission.row) :
  continue (role_permission.role_uuid r)
    {| PublicRole.Name := role_permission.role_name r;
       PublicRole.Permissions := [role_permission.permission_name r] |} rest =
  map group_of (runs (r :: rest)).
Proof.
  rewrite continue_runs. cbn [runs].
  pose proof (runs_nonempty rest) as Hne.
  destruct (runs rest) as [| [| r' run] others].
  - reflexivity.
  - inversion Hne; congruence.
  - cbn [leads]. rewrite (String.eqb_sym (role_permission.role_uuid r')).
    destruct (_ =? _)%string; reflexivity.
Qed.

Lemma role_permissions_loop_runs (rows : list role_permission.row) (w : World) :
  uuid_of rows <> ""%string \/ rows = [] ->
  role_permissions_loop rows "" [] w = Returns (map group_of (runs rows)) w.
Proof.
  intros Hfirst. destruct rows as [| r rest]; [reflexivity |].
  destruct Hfirst as [Hfirst | Hnil]; [| discriminate].
  cbn [uuid_of] in Hfirst. apply String.eqb_neq in Hfirst.
  cbn [role_permissions_loop]. rewrite Hfirst. cbn [negb].
  rewrite (index_alter_last _ [] _).
  rewrite (role_permissions_loop_continue rest _ [] _ w). cbn [app].
  unfold append_permission. cbn [PublicRole.Name PublicRole.Permissions app].
  now rewrite continue_first_run.
Qed.

Lemma row_leb_role_name (r1 r2 : role_permission.row) :
  row_leb r1 r2 = true ->
  String.leb (role_permission.role_name r1) (role_permission.role_name r2) = true.
Proof.
  unfold row_leb, String.leb.
  destruct (String.compare _ _); [reflexivity | reflexivity | discriminate].
Qed.

Lemma compare_refl (s : string) : String.compare s s = Eq.
Proof.
  pose proof (String.compare_antisym s s) as H.
  destruct (String.compare s s); cbn in H; congruence.
Qed.

Lemma row_leb_permission_name (r1 r2 : role_permission.row) :
  role_permission.role_name r1 = role_permission.role_name r2 ->
  row_leb r1 r2 = true ->
  String.leb (role_permission.permission_name r1)
             (role_permission.permission_name r2) = true.
Proof.
  intros Hname. unfold row_leb. now rewrite Hname, compare_refl.
Qed.

Lemma StronglySorted_app_inv {A} (R : A -> A -> Prop) (l1 l2 : list A) :
  StronglySorted R (l1 ++ l2) ->
  StronglySorted R l1 /\ StronglySorted R l2 /\
  (forall x y, In x l1 -> In y l2 -> R x y).
Proof.
  induction l1 as [| a l1 IH]; cbn [app]; intros Hs.
  - repeat split; [constructor | exact Hs | intros x y []].
  - apply StronglySorted_inv in Hs as [Hs Ha].
    destruct (IH Hs) as (H1 & H2 & H12).
    rewrite Forall_app in Ha. destruct Ha as [Ha1 Ha2].
    repeat split.
    + constructor; assumption.
    + assumption.
    + intros x y [<- | Hx] Hy.
      * rewrite Forall_forall in Ha2. now apply Ha2.
      * now apply H12.
Qed.

Lemma group_names_in_order (rs : list (list role_permission.row)) :
  Forall (fun run => run <> []) rs ->
  ordered (concat rs) ->
  in_order (map PublicRole.Name (map group_of rs)).
Proof.
  unfold ordered, in_order.
  induction rs as [| run rs IH]; intros Hne Hs; [constructor |].
  inversion Hne as [| ? ? Hrun Hrest]; subst.
  cbn [concat] in Hs. apply StronglySorted_app_inv in Hs as (_ & Hs2 & H12).
  cbn [map]. constructor; [now apply IH |].
  rewrite Forall_forall. intros name Hin.
  rewrite map_map in Hin. apply in_map_iff in Hin as (next & <- & Hnext).
  rewrite Forall_forall in Hrest. specialize (Hrest next Hnext).
  destruct run as [| r run]; [congruence |].
  destruct next as [| r' next']; [congruence |].
  cbn [group_of PublicRole.Name]. apply row_leb_role_name. apply H12.
  - now left.
  - apply in_concat. exists (r' :: next'). split; [assumption | now left].
Qed.

Lemma permissions_in_order (run : list role_permission.row) :
  ordered run ->
  (forall r1 r2, In r1 run -> In r2 run ->
     role_permission.role_name r1 = role_permission.role_name r2) ->
  in_order (PublicRole.Permissions (group_of run)).
Proof.
  unfold ordered, in_order. cbn [group_of PublicRole.Permissions].
  induction run as [| r run IH]; intros Hs Hname; [constructor |].
  apply StronglySorted_inv in Hs as [Hs Hr]. cbn [map]. constructor.
  - apply IH; [assumption |]. intros r1 r2 H1 H2. apply Hname; now right.
  - rewrite Forall_forall in *. intros p Hp.
    apply in_map_iff in Hp as (r2 & <- & H2).
    apply row_leb_permission_name; [| now apply Hr].
    apply Hname; [now left | now right].
Qed.

Lemma runs_ordered (rs : list (list role_permission.row)) :
  ordered (concat rs) -> Forall ordered rs.
Proof.
  unfold ordered. induction rs as [| run rs IH]; intros Hs; [constructor |].
  cbn [concat] in Hs. apply StronglySorted_app_inv in Hs as (H1 & H2 & _).
  constructor; [assumption | now apply IH].
Qed.

Lemma groups_in_order (rows : list role_permission.row) :
  ordered rows -> role_keyed rows ->
  in_order (map PublicRole.Name (map group_of (runs rows))) /\
  Forall (fun g => in_order (PublicRole.Permissions g)) (map group_of (runs rows)).
Proof.
  intros Hs Hkey. pose proof (runs_concat rows) as Hcat.
  split.
  - apply group_names_in_order; [apply runs_nonempty | now rewrite Hcat].
  - rewrite Forall_map, Forall_forall. intros run Hrun.
    destruct (runs_maximal rows) as [Huuid _].
    rewrite Forall_forall in Huuid. specialize (Huuid run Hrun).
    rewrite Forall_forall in Huuid.
    assert (Hsub : forall r, In r run -> In r rows).
    { intros r Hr. rewrite <- Hcat. apply in_concat. now exists run. }
    apply permissions_in_order.
    + pose proof (runs_ordered (runs rows)) as Hall. rewrite Hcat in Hall.
      specialize (Hall Hs). rewrite Forall_forall in Hall. now apply Hall.
    + intros r1 r2 H1 H2. apply Hkey; [now apply Hsub | now apply Hsub |].
      now rewrite (Huuid r1 H1), (Huuid r2 H2).
Qed.

(** On an answer whose first row has a role uuid other than the empty string,
    the loop returns one group per maximal run of rows with equal role uuid,
    in the order of the runs, each with the role name of its run and the
    permission names of the run in their order.  When the rows are ordered by
    role name and then permission name, and a role uuid stands for one role
    name, the groups are in role-name order and the permissions of each group
    in permission-name order. *)
Lemma role_permissions_loop_groups (rows : list role_permission.row) (w : World) :
  uuid_of rows <> ""%string \/ rows = [] ->
  role_permissions_loop rows "" [] w = Returns (map group_of (runs rows)) w /\
  concat (runs rows) = rows /\
  Forall (fun run => Forall (fun r => role_permission.role_uuid r = uuid_of run) run)
         (runs rows) /\
  neighbours_differ (runs rows) /\
  (ordered rows -> role_keyed rows ->
   in_order (map PublicRole.Name (map group_of (runs rows))) /\
   Forall (fun g => in_order (PublicRole.Permissions g)) (map group_of (runs rows))).
Proof.
  intros Hfirst.
  split; [now apply role_permissions_loop_runs |].
  split; [apply runs_concat |].
  split; [apply runs_maximal |].
  split; [apply runs_maximal | apply groups_in_order].
Qed.

(** Of the statements of the code, the driver refuses one: every other names
    only columns of the tables it lists. *)
Lemma compile_refuses (q : statement) :
  compile q <> None <-> q = USER_ROLE_PERMISSIONS_SQL.
Proof.
  destruct q; split; intros H; try reflexivity; try discriminate;
    exfalso; apply H; reflexivity.
Qed.

(** C8 does not hold of the code: the loop never gets a row.
    [USER_ROLE_PERMISSIONS_SQL] selects [roles.uuid] and [roles.name] and
    orders by [roles.name], and lists [user_roles], [role_permissions] and
    [permissions] after FROM, but not [roles].  The driver refuses the text
    when it compiles it, for every user and whatever the store holds, and
    [PublicUserRolePermissions] returns that error and no group. *)
Theorem PublicUserRolePermissions_returns_no_group (user : AuthUser.t) (w : World) :
  unresolved USER_ROLE_PERMISSIONS_SQL = Some ("roles"%string, "uuid"%string) /\
  PublicUserRolePermissions user w =
    Returns (None, Some (ErrDriver "no such column: roles.uuid"))
            (sent w USER_ROLE_PERMISSIONS_SQL [AuthUser.Uuid user]).
Proof.
  split; [reflexivity |].
  unfold PublicUserRolePermissions, bind, Query_role_permissions.
  reflexivity.
Qed.

(** The store of two roles with three permissions each: no group either. *)
Example PublicUserRolePermissions_on_two_roles :
  let w := world_of two_roles_store 0 in
  user_role_permissions (store w) "u-1" = (two_roles, None) /\
  PublicUserRolePermissions (account_of "ann@example.com" (ann true)) w =
    Returns (None, Some (ErrDriver "no such column: roles.uuid"))
            (sent w USER_ROLE_PERMISSIONS_SQL ["u-1"%string]).
Proof. split; reflexivity. Qed.

(** The resolver on a store with one account. *)
Example FindUserById_by_email :
  exists u w',
    @FindUserById addr_spec_mail "ann@example.com"
      (world_of (ann_store true) 0) = Returns (Some u, None) w' /\
    AuthUser.Uuid u = "u-1"%string /\
    journal w' = [(FIND_USER_BY_USERNAME_SQL, ["ann@example.com"%string])].
Proof. do 2 eexists. vm_compute. repeat split. Qed.

Example FindUserById_by_uuid :
  exists u w',
    @FindUserById addr_spec_mail "u-1" (world_of (ann_store true) 0) =
      Returns (Some u, None) w' /\
    AuthUser.Email u = "ann@example.com"%string /\
    journal w' = [(FIND_USER_BY_UUID_SQL, ["u-1"%string])].
Proof. do 2 eexists. vm_compute. repeat split. Qed.

Example FindUserById_not_found :
  exists w',
    @FindUserById addr_spec_mail "nobody" (world_of (ann_store true) 0) =
      Returns (None, Some ErrNoRows) w'.
Proof. eexists. vm_compute. reflexivity. Qed.


(** * Properties of the rest *)

(** ** Setters *)

Lemma set_users_same (s : Store) : set_users s (users_table s) = s.
Proof. destruct s; reflexivity. Qed.

Lemma map_unless_absent {A} (p : A -> bool) (g : A -> A) (l : list A) :
  find p l = None -> map (fun r => if p r then g r else r) l = l.
Proof.
  induction l as [| x l IH]; cbn; [reflexivity |].
  destruct (p x) eqn:E; [discriminate |]. intros H. now rewrite IH.
Qed.

Lemma update_users_absent (uuid : string) (change : users.row -> users.row) (s : Store) :
  select_user FIND_USER_BY_UUID_SQL uuid s = None ->
  update_users uuid change s = s.
Proof.
  cbn [select_user]. intros H. unfold update_users.
  rewrite (map_unless_absent _ change _ H). apply set_users_same.
Qed.

Lemma existsb_absent {A} (p : A -> bool) (l : list A) :
  find p l = None -> existsb p l = false.
Proof.
  induction l as [| x l IH]; cbn; [reflexivity |].
  destruct (p x); [discriminate | exact IH].
Qed.

Lemma taken_absent (column : users.row -> string) (value uuid : string) (s : Store) :
  select_user FIND_USER_BY_UUID_SQL uuid s = None -> taken column value uuid s = false.
Proof.
  cbn [select_user]. intros H. unfold taken. now rewrite (existsb_absent _ _ H).
Qed.

Lemma insert_user_error (uuid first_name last_name username email password : string)
    (now : N) (s : Store) (e : error_value) :
  snd (insert_user uuid first_name last_name username email password now s) = Some e ->
  fst (insert_user uuid first_name last_name username email password now s) = s.
Proof.
  unfold insert_user.
  repeat match goal with |- context [if ?b then _ else _] => destruct b end;
    cbn; congruence.
Qed.

(** A statement that the store refuses changes nothing. *)
Lemma run_update_error (q : statement) (args : list string) (now : N) (s : Store)
    (e : error_value) :
  snd (run_update q args now s) = Some e -> fst (run_update q args now s) = s.
Proof.
  destruct q;
    destruct args as [| a1 [| a2 [| a3 [| a4 [| a5 [| a6 [| a7 args]]]]]]];
    cbn [run_update run_exec]; try (cbn; congruence).
  - apply insert_user_error.
  - destruct (taken _ _ _ _); cbn; congruence.
  - destruct (taken _ _ _ _); cbn; congruence.
  - destruct (taken _ _ _ _); cbn; congruence.
  - unfold insert_user_role. destruct (existsb _ _); cbn; congruence.
Qed.

Lemma ExecUpdate_eq (q : statement) (args : list string) (w : World) :
  ExecUpdate q args w =
  Returns (snd (run_update q args (clock w) (store w)))
          (sent (with_store w (fst (run_update q args (clock w) (store w)))) q args).
Proof. unfold ExecUpdate. now destruct (run_update _ _ _ _). Qed.

Lemma Exec_eq (q : statement) (args : list string) (w : World) :
  Exec q args w =
  Returns (snd (run_exec q args (clock w) (store w)))
          (sent (with_store w (fst (run_exec q args (clock w) (store w)))) q args).
Proof. unfold Exec. now destruct (run_exec _ _ _ _). Qed.

Section Setters.
Context {net_mail : NetMail} {bcrypt : Bcrypt}.

Lemma SetIsVerified_eq (userId : string) (w : World) :
  SetIsVerified userId w =
  Returns None
          (sent (with_store w (update_users userId
                   (fun r => updated_row r (users.first_name r) (users.last_name r)
                               (users.username r) (users.email r) true) (store w)))
                SET_EMAIL_VERIFIED_SQL [userId]).
Proof. reflexivity. Qed.

Lemma SetUsername_eq (uuid username : string) (w : World) :
  SetUsername uuid username w =
  match CheckUsername username with
  | Some err => Returns (Some err) w
  | None => written SET_USERNAME_SQL [username; uuid] "could not update username" w
  end.
Proof.
  unfold SetUsername, written. destruct (CheckUsername username); [reflexivity |].
  unfold bind. rewrite ExecUpdate_eq.
  destruct (snd (run_update _ _ _ _)); reflexivity.
Qed.

Lemma SetName_eq (uuid firstName lastName : string) (w : World) :
  SetName uuid firstName lastName w =
  match CheckName firstName, CheckName lastName with
  | Some err, _ => Returns (Some err) w
  | None, Some err => Returns (Some err) w
  | None, None =>
      written SET_NAME_SQL [firstName; lastName; uuid] "could not update name" w
  end.
Proof.
  unfold SetName, written. destruct (CheckName firstName); [reflexivity |].
  destruct (CheckName lastName); [reflexivity |].
  unfold bind. rewrite ExecUpdate_eq.
  destruct (snd (run_update _ _ _ _)); reflexivity.
Qed.

Lemma SetUserInfo_eq (uuid username firstName lastName : string) (w : World) :
  SetUserInfo uuid username firstName lastName w =
  match CheckUsername username, CheckName firstName, CheckName lastName with
  | Some err, _, _ => Returns (Some err) w
  | None, Some err, _ => Returns (Some err) w
  | None, None, Some err => Returns (Some err) w
  | None, None, None =>
      written SET_INFO_SQL [uuid; username; firstName; lastName]
              "could not update user info" w
  end.
Proof.
  unfold SetUserInfo, written. destruct (CheckUsername username); [reflexivity |].
  destruct (CheckName firstName); [reflexivity |].
  destruct (CheckName lastName); [reflexivity |].
  unfold bind. rewrite ExecUpdate_eq.
  destruct (snd (run_update _ _ _ _)); reflexivity.
Qed.

Lemma SetEmailAddress_eq (uuid : string) (a : mail.Address) (w : World) :
  SetEmailAddress uuid (Some a) w =
  written SET_EMAIL_SQL [mail.Addr a; uuid] "could not update email address" w.
Proof.
  unfold SetEmailAddress, written, bind, deref, pure. rewrite ExecUpdate_eq.
  destruct (snd (run_update _ _ _ _)); reflexivity.
Qed.

Lemma CheckEmailIsWellFormed_cases (email : string) :
  (exists a, CheckEmailIsWellFormed email = (Some a, None) /\
             ParseAddress email = (Some a, None) /\
             MatchString USERNAME_REGEX email = true) \/
  (exists err, CheckEmailIsWellFormed email = (None, Some err)).
Proof.
  unfold CheckEmailIsWellFormed.
  destruct (MatchString USERNAME_REGEX email); cbn [negb].
  - destruct (ParseAddress_result email) as [[a Ha] | [e Ha]]; rewrite Ha.
    + left. exists a. auto.
    + right. eexists. reflexivity.
  - right. eexists. reflexivity.
Qed.

Lemma written_error (q : statement) (args : list string) (message : string)
    (w w' : World) (err : error_value) :
  written q args message w = Returns (Some err) w' -> store w' = store w.
Proof.
  unfold written. intros H.
  destruct (snd (run_update q args (clock w) (store w))) as [e |] eqn:E;
    [| discriminate].
  injection H as _ <-. cbn. now apply run_update_error with (e := e).
Qed.

Ltac fail_closed H :=
  repeat match type of H with
         | context [match ?c with _ => _ end] =>
             match c with
             | CheckUsername _ => destruct c
             | CheckName _ => destruct c
             | CheckPassword _ => destruct c
             end
         end;
  first [ now (injection H as _ <-) | now apply written_error in H ].

(** The setters fail closed: whenever one of them returns an error, be it of
    a validator or of the store, the store is as it was before the call. *)
Theorem setters_fail_closed (uuid : string) (w w' : World) (err : error_value) :
  (forall password, SetPassword uuid password w = Returns (Some err) w' ->
                    store w' = store w) /\
  (forall username, SetUsername uuid username w = Returns (Some err) w' ->
                    store w' = store w) /\
  (forall firstName lastName,
     SetName uuid firstName lastName w = Returns (Some err) w' -> store w' = store w) /\
  (forall username firstName lastName,
     SetUserInfo uuid username firstName lastName w = Returns (Some err) w' ->
     store w' = store w) /\
  (forall email, SetEmail uuid email w = Returns (Some err) w' -> store w' = store w) /\
  (forall address, SetEmailAddress uuid address w = Returns (Some err) w' ->
                   store w' = store w).
Proof.
  repeat apply conj.
  - intros password H.
    destruct (CheckPassword password) as [e |] eqn:Hpw.
    + rewrite (SetPassword_invalid _ _ _ _ Hpw) in H. now injection H as _ <-.
    + rewrite (SetPassword_eq _ _ _ Hpw) in H.
      destruct (GenerateFromPassword _ _ _) as [hash [e |]]; discriminate.
  - intros username H. rewrite SetUsername_eq in H. fail_closed H.
  - intros firstName lastName H. rewrite SetName_eq in H. fail_closed H.
  - intros username firstName lastName H. rewrite SetUserInfo_eq in H. fail_closed H.
  - intros email H. unfold SetEmail in H.
    destruct (CheckEmailIsWellFormed_cases email) as [(a & Ha & _) | [e Ha]];
      rewrite Ha in H.
    + rewrite SetEmailAddress_eq in H. now apply written_error in H.
    + now injection H as _ <-.
  - intros [a |] H.
    + rewrite SetEmailAddress_eq in H. now apply written_error in H.
    + discriminate.
Qed.

Lemma written_absent (q : statement) (args : list string) (message : string) (w : World) :
  run_update q args (clock w) (store w) = (store w, None) ->
  exists w', written q args message w = Returns None w' /\ store w' = store w.
Proof.
  intros H. unfold written. rewrite H. cbn. eexists. split; reflexivity.
Qed.

(** No setter looks at the number of rows it has changed: for a uuid that no
    account has, each setter with valid arguments returns nil, and the store
    is as it was. *)
Theorem setters_ignore_unknown_uuid (uuid : string) (w : World) :
  select_user FIND_USER_BY_UUID_SQL uuid (store w) = None ->
  (forall password,
     CheckPassword password = None -> len password <= 72 ->
     exists w', SetPassword uuid password w = Returns None w' /\ store w' = store w) /\
  (forall username,
     CheckUsername username = None ->
     exists w', SetUsername uuid username w = Returns None w' /\ store w' = store w) /\
  (forall firstName lastName,
     CheckName firstName = None -> CheckName lastName = None ->
     exists w', SetName uuid firstName lastName w = Returns None w' /\
                store w' = store w) /\
  (forall username firstName lastName,
     CheckUsername username = None -> CheckName firstName = None ->
     CheckName lastName = None ->
     exists w', SetUserInfo uuid username firstName lastName w = Returns None w' /\
                store w' = store w) /\
  (forall address,
     exists w', SetEmailAddress uuid (Some address) w = Returns None w' /\
                store w' = store w) /\
  (exists w', SetIsVerified uuid w = Returns None w' /\ store w' = store w).
Proof.
  intros Habsent. repeat apply conj.
  - intros password Hpw Hlen. rewrite (SetPassword_eq _ _ _ Hpw).
    destruct (generate_hashes password (salts w (draws w)) Hlen) as [hash Hh].
    rewrite Hh. eexists. split; [reflexivity |].
    cbn [password_written store sent with_store drawn]. unfold set_password.
    cbn [select_user] in Habsent.
    rewrite (map_unless_absent _ _ _ Habsent). apply set_users_same.
  - intros username Hu. rewrite SetUsername_eq, Hu. apply written_absent.
    cbn [run_update]. now rewrite taken_absent, update_users_absent.
  - intros firstName lastName H1 H2. rewrite SetName_eq, H1, H2. apply written_absent.
    cbn [run_update]. now rewrite update_users_absent.
  - intros username firstName lastName H1 H2 H3.
    rewrite SetUserInfo_eq, H1, H2, H3. apply written_absent.
    cbn [run_update]. now rewrite taken_absent, update_users_absent.
  - intros address. rewrite SetEmailAddress_eq. apply written_absent.
    cbn [run_update]. now rewrite taken_absent, update_users_absent.
  - rewrite SetIsVerified_eq. eexists. split; [reflexivity |].
    cbn [store sent with_store]. now apply update_users_absent.
Qed.
End Setters.

(** ** Writing, then reading *)

Lemma find_map_preserving {A} (p : A -> bool) (h : A -> A) (l : list A) :
  (forall x, p (h x) = p x) -> find p (map h l) = option_map h (find p l).
Proof.
  intros Hp. induction l as [| x l IH]; cbn; [reflexivity |].
  rewrite Hp. destruct (p x); [reflexivity | exact IH].
Qed.

Lemma existsb_found {A} (p : A -> bool) (l : list A) (x : A) :
  find p l = Some x -> existsb p l = true.
Proof.
  induction l as [| y l IH]; cbn; [discriminate |].
  destruct (p y); [reflexivity | exact IH].
Qed.

(** After an UPDATE that gives [value] to the column of the rows with the
    uuid, and that no other row held, the first row with the value is the
    first row with the uuid, updated. *)
Lemma find_after_update (column : users.row -> string) (value uuid : string)
    (g : users.row -> users.row) (l : list users.row) :
  (forall r, column (g r) = value) ->
  existsb (fun r => negb (users.uuid r =? uuid)%string && (column r =? value)%string) l
    = false ->
  find (fun r => (column r =? value)%string)
       (map (fun r => if (users.uuid r =? uuid)%string then g r else r) l) =
  option_map g (find (fun r => (users.uuid r =? uuid)%string) l).
Proof.
  intros Hg. induction l as [| x l IH]; cbn; [reflexivity |].
  destruct (users.uuid x =? uuid)%string; cbn [negb andb orb].
  - intros _. now rewrite Hg, String.eqb_refl.
  - destruct (column x =? value)%string; [discriminate | exact IH].
Qed.

Lemma taken_free (column : users.row -> string) (value uuid : string) (s : Store)
    (r : users.row) :
  select_user FIND_USER_BY_UUID_SQL uuid s = Some r ->
  taken column value uuid s = false ->
  existsb (fun x => negb (users.uuid x =? uuid)%string && (column x =? value)%string)
          (users_table s) = false.
Proof.
  cbn [select_user]. intros Hr. unfold taken.
  now rewrite (existsb_found _ _ _ Hr).
Qed.

Lemma select_uuid (uuid : string) (s : Store) (r : users.row) :
  select_user FIND_USER_BY_UUID_SQL uuid s = Some r -> users.uuid r = uuid.
Proof.
  cbn [select_user]. intros H. apply find_some in H as [_ H].
  now apply String.eqb_eq.
Qed.

Lemma written_done (q : statement) (args : list string) (message : string)
    (w w' : World) :
  written q args message w = Returns None w' ->
  snd (run_update q args (clock w) (store w)) = None /\
  store w' = fst (run_update q args (clock w) (store w)).
Proof.
  unfold written. intros H.
  destruct (snd (run_update q args (clock w) (store w))); [discriminate |].
  injection H as <-. split; reflexivity.
Qed.

Section RoundTrips.
Context {net_mail : NetMail} {bcrypt : Bcrypt}.

(** After a [SetUsername] that succeeds on an account, [FindUserByUsername]
    of the new name finds that account, with the new name and its other
    columns as they were. *)
Theorem SetUsername_then_FindUserByUsername (uuid username : string)
    (r : users.row) (w w' : World) :
  select_user FIND_USER_BY_UUID_SQL uuid (store w) = Some r ->
  SetUsername uuid username w = Returns None w' ->
  exists u w'',
    FindUserByUsername username w' = Returns (Some u, None) w'' /\
    AuthUser.Uuid u = uuid /\ AuthUser.Username u = username /\
    AuthUser.Email u = users.email r /\
    AuthUser.HashedPassword u = users.password r /\
    AuthUser.EmailVerified u = users.email_verified r.
Proof.
  intros Hr Hset. rewrite SetUsername_eq in Hset.
  destruct (CheckUsername username) as [e |] eqn:Hc; [discriminate |].
  apply written_done in Hset as [Herr Hstore]. cbn [run_update] in Herr, Hstore.
  destruct (taken users.username username uuid (store w)) eqn:Ht; [discriminate |].
  cbn [fst] in Hstore.
  assert (Hsel : select_user FIND_USER_BY_USERNAME_SQL username (store w') =
                 Some (updated_row r (users.first_name r) (users.last_name r) username
                         (users.email r) (users.email_verified r))).
  { rewrite Hstore. cbn [select_user update_users users_table set_users].
    rewrite (find_after_update users.username username uuid
               (fun r => updated_row r (users.first_name r) (users.last_name r)
                           username (users.email r) (users.email_verified r))).
    - cbn [select_user] in Hr. now rewrite Hr.
    - reflexivity.
    - exact (taken_free _ _ _ _ _ Hr Ht). }
  rewrite (FindUserByUsername_found _ _ _ Hc Hsel).
  do 2 eexists. split; [reflexivity |].
  cbn. repeat split. exact (select_uuid _ _ _ Hr).
Qed.

(** After a [SetEmail] that succeeds on an account, [FindUserByEmail] of the
    parsed address finds that account, with the new email and its other
    columns as they were. *)
Theorem SetEmail_then_FindUserByEmail (uuid email : string)
    (r : users.row) (w w' : World) :
  select_user FIND_USER_BY_UUID_SQL uuid (store w) = Some r ->
  SetEmail uuid email w = Returns None w' ->
  exists a u w'',
    ParseAddress email = (Some a, None) /\
    FindUserByEmail (Some a) w' = Returns (Some u, None) w'' /\
    AuthUser.Uuid u = uuid /\ AuthUser.Email u = mail.Addr a /\
    AuthUser.Username u = users.username r /\
    AuthUser.HashedPassword u = users.password r /\
    AuthUser.EmailVerified u = users.email_verified r.
Proof.
  intros Hr Hset. unfold SetEmail in Hset.
  destruct (CheckEmailIsWellFormed_cases email) as [(a & Ha & Hparse & _) | [e Ha]];
    rewrite Ha in Hset; [| discriminate].
  rewrite SetEmailAddress_eq in Hset.
  apply written_done in Hset as [Herr Hstore]. cbn [run_update] in Herr, Hstore.
  destruct (taken users.email (mail.Addr a) uuid (store w)) eqn:Ht; [discriminate |].
  cbn [fst] in Hstore.
  exists a. rewrite FindUserByEmail_eq, Hstore.
  cbn [select_user update_users users_table set_users].
  rewrite (find_after_update users.email (mail.Addr a) uuid
             (fun r => updated_row r (users.first_name r) (users.last_name r)
                         (users.username r) (mail.Addr a) (users.email_verified r)));
    [| reflexivity | exact (taken_free _ _ _ _ _ Hr Ht)].
  cbn [select_user] in Hr. rewrite Hr. cbn [option_map by_email].
  do 2 eexists. split; [exact Hparse |]. split; [reflexivity |].
  cbn. repeat split. apply (select_uuid uuid (store w)). exact Hr.
Qed.

(** After a [SetPassword] that succeeds on an account, the account read back
    accepts the new password, and it refuses every other password that
    [CheckPassword] accepts and that has at most 72 bytes: the passwords that
    can be set, which bcrypt tells apart. *)
Theorem SetPassword_then_CheckPasswordsMatch (uuid password : string)
    (r : users.row) (w w' : World) :
  select_user FIND_USER_BY_UUID_SQL uuid (store w) = Some r ->
  SetPassword uuid password w = Returns None w' ->
  exists u w'',
    FindUserByUuid uuid w' = Returns (Some u, None) w'' /\
    AuthUser_CheckPasswordsMatch u password = None /\
    (forall other,
       CheckPassword other = None -> len other <= 72 -> other <> password ->
       AuthUser_CheckPasswordsMatch u other = Some (Errorf "passwords do not match")).
Proof.
  intros Hr Hset.
  destruct (CheckPassword password) as [e |] eqn:Hpw.
  { rewrite (SetPassword_invalid _ _ _ _ Hpw) in Hset. discriminate. }
  rewrite (SetPassword_eq _ _ _ Hpw) in Hset.
  destruct (GenerateFromPassword password DefaultCost (salts w (draws w)))
    as [hash [e |]] eqn:Hhash; [discriminate |].
  injection Hset as <-.
  rewrite FindUserByUuid_eq. cbn [password_written store sent with_store].
  rewrite select_after_set_password, Hr. cbn [by_uuid].
  do 2 eexists. split; [reflexivity |].
  unfold AuthUser_CheckPasswordsMatch, CheckPasswordsMatch.
  cbn [NewAuthUser AuthUser.HashedPassword users.password].
  split.
  - assert (Hok : CompareHashAndPassword hash password = None)
      by (now apply (compare_generated _ _ _ _ Hhash)).
    now rewrite Hok.
  - intros other _ _ Hne.
    destruct (CompareHashAndPassword hash other) eqn:Hcmp; [reflexivity |].
    apply (compare_generated _ _ _ _ Hhash) in Hcmp. congruence.
Qed.

(** After [SetIsVerified] on the account of an email, the account reads as
    verified, and a signup with that email and a valid password is refused
    as already registered, without a write. *)
Theorem SetIsVerified_then_CreateStandardUser (user : SignupReq.t)
    (a : mail.Address) (r : users.row) (w w1 : World) :
  ParseAddress (SignupReq.Email user) = (Some a, None) ->
  CheckPassword (SignupReq.Password user) = None ->
  select_user FIND_USER_BY_EMAIL_SQL (mail.Addr a) (store w) = Some r ->
  SetIsVerified (users.uuid r) w = Returns None w1 ->
  (exists u w2,
     FindUserByEmail (Some a) w1 = Returns (Some u, None) w2 /\
     AuthUser.EmailVerified u = true /\ AuthUser.Uuid u = users.uuid r /\
     AuthUser.HashedPassword u = users.password r) /\
  CreateStandardUser user w1 =
    Returns (None, Some already_registered)
            (sent w1 FIND_USER_BY_EMAIL_SQL [mail.Addr a]).
Proof.
  intros Hparse Hpw Hr Hset. rewrite SetIsVerified_eq in Hset. injection Hset as <-.
  set (verify := fun r => updated_row r (users.first_name r) (users.last_name r)
                            (users.username r) (users.email r) true).
  set (w1 := sent _ _ _).
  assert (Hsel : select_user FIND_USER_BY_EMAIL_SQL (mail.Addr a) (store w1) =
                 Some (verify r)).
  { subst w1. cbn [store sent with_store select_user update_users users_table set_users].
    rewrite find_map_preserving.
    - cbn [select_user] in Hr. rewrite Hr. cbn [option_map].
      now rewrite String.eqb_refl.
    - intros x. destruct (users.uuid x =? users.uuid r)%string; reflexivity. }
  split.
  - rewrite FindUserByEmail_eq, Hsel. do 2 eexists. split; [reflexivity |].
    cbn. repeat split.
  - rewrite (CreateStandardUser_found _ _ _ _ Hpw Hparse Hsel). reflexivity.
Qed.
End RoundTrips.

(** ** One-time codes *)

Section Codes.
Context {net_mail : NetMail} {bcrypt : Bcrypt}.

(** A one-time code is bound to the timestamp only: the code made for one
    account is accepted for an account exactly when the two have the same
    [Updated], whoever they are. *)
Theorem CreateOtp_accepted_iff (u1 u2 : AuthUser.t) (otp : string) (w w' : World) :
  CreateOtp u1 w = Returns otp w' ->
  (CheckOtpValid u2 otp = None <-> AuthUser.Updated u1 = AuthUser.Updated u2).
Proof.
  unfold CreateOtp. rewrite HashPassword_eq.
  destruct (GenerateFromPassword (FormatUint (AuthUser.Updated u1)) DefaultCost
              (salts w (draws w))) as [h [e |]] eqn:Hgen; [discriminate |].
  intros H. injection H as -> _.
  unfold CheckOtpValid, CheckPasswordsMatch.
  pose proof (compare_generated _ _ _ (FormatUint (AuthUser.Updated u2)) Hgen) as Hlaw.
  destruct (CompareHashAndPassword otp (FormatUint (AuthUser.Updated u2))).
  - split; [discriminate |]. intros Heq. rewrite Heq in Hlaw.
    destruct Hlaw as [_ Hlaw]. now specialize (Hlaw eq_refl).
  - split; [| reflexivity]. intros _. apply FormatUint_inj. now apply Hlaw.
Qed.
End Codes.

(** ** Registration, then reading *)

Lemma find_app_absent {A} (p : A -> bool) (l1 l2 : list A) :
  existsb p l1 = false -> find p (l1 ++ l2) = find p l2.
Proof.
  induction l1 as [| x l1 IH]; cbn; [reflexivity |].
  destruct (p x); [discriminate | exact IH].
Qed.

Lemma insert_user_done (uuid first_name last_name username email password : string)
    (now : N) (s s' : Store) :
  insert_user uuid first_name last_name username email password now s = (s', None) ->
  existsb (fun r => (users.uuid r =? uuid)%string) (users_table s) = false /\
  existsb (fun r => (users.email r =? email)%string) (users_table s) = false /\
  s' = set_users s
         (users_table s ++
          [{| users.uuid := uuid; users.first_name := first_name;
              users.last_name := last_name; users.username := username;
              users.email := email; users.password := password;
              users.email_verified := false;
              users.can_signin := can_signin_default s;
              users.updated_on := now |}]).
Proof.
  unfold insert_user.
  destruct (existsb _ _); [discriminate |].
  destruct (existsb _ _); [discriminate |].
  destruct (existsb _ _); [discriminate |].
  intros H. injection H as <-. auto.
Qed.

Section Registered.
Context {net_mail : NetMail} {bcrypt : Bcrypt}.

(** What a registration with a new email leaves: the hash of the password,
    the new row at the end of the table, and the account of that row. *)
Lemma CreateStandardUser_created (user : SignupReq.t) (a : mail.Address)
    (u : AuthUser.t) (w w' : World) :
  ParseAddress (SignupReq.Email user) = (Some a, None) ->
  select_user FIND_USER_BY_EMAIL_SQL (mail.Addr a) (store w) = None ->
  CreateStandardUser user w = Returns (Some u, None) w' ->
  exists hash new,
    GenerateFromPassword (SignupReq.Password user) DefaultCost
      (salts w (S (draws w))) = (hash, None) /\
    users.uuid new = uuids w (draws w) /\
    users.username new = mail.Addr a /\ users.email new = mail.Addr a /\
    users.password new = hash /\
    u = account_of (mail.Addr a) new /\
    users_table (store w') = (users_table (store w) ++ [new])%list /\
    existsb (fun r => (users.uuid r =? users.uuid new)%string)
            (users_table (store w)) = false /\
    existsb (fun r => (users.email r =? mail.Addr a)%string)
            (users_table (store w)) = false.
Proof.
  intros Hparse Hrow Hcall.
  destruct (CheckPassword (SignupReq.Password user)) as [e |] eqn:Hpw.
  { rewrite (CreateStandardUser_invalid_password _ _ _ Hpw) in Hcall. discriminate. }
  rewrite (CreateStandardUser_new _ _ _ Hpw Hparse Hrow) in Hcall. cbv zeta in Hcall.
  destruct (GenerateFromPassword _ _ _) as [hash [e |]] eqn:Hhash; [discriminate |].
  destruct (insert_user _ _ _ _ _ _ _ _) as [s [e |]] eqn:Hins; [discriminate |].
  apply insert_user_done in Hins as (Huuid & Hemail & ->).
  cbn [select_user users_table set_users] in Hcall.
  rewrite (find_app_absent _ _ _ Hemail) in Hcall. cbn [find users.email] in Hcall.
  rewrite String.eqb_refl in Hcall. injection Hcall as <- <-.
  do 2 eexists. repeat split; try reflexivity; assumption.
Qed.

(** A registration with a new email, once it has returned the account: the
    username and the email of the account are the parsed address, its hash
    accepts the password of the request, the table has one row more, and both
    [FindUserByEmail] of the address and [FindUserByUuid] of the new uuid
    read the same account back. *)
Theorem CreateStandardUser_then_find (user : SignupReq.t) (a : mail.Address)
    (u : AuthUser.t) (w w' : World) :
  ParseAddress (SignupReq.Email user) = (Some a, None) ->
  select_user FIND_USER_BY_EMAIL_SQL (mail.Addr a) (store w) = None ->
  CreateStandardUser user w = Returns (Some u, None) w' ->
  AuthUser.Username u = mail.Addr a /\ AuthUser.Email u = mail.Addr a /\
  AuthUser_CheckPasswordsMatch u (SignupReq.Password user) = None /\
  List.length (users_table (store w')) = S (List.length (users_table (store w))) /\
  FindUserByEmail (Some a) w' =
    Returns (Some u, None) (sent w' FIND_USER_BY_EMAIL_SQL [mail.Addr a]) /\
  FindUserByUuid (AuthUser.Uuid u) w' =
    Returns (Some u, None) (sent w' FIND_USER_BY_UUID_SQL [AuthUser.Uuid u]).
Proof.
  intros Hparse Hrow Hcall.
  destruct (CreateStandardUser_created _ _ _ _ _ Hparse Hrow Hcall)
    as (hash & new & Hhash & Hid & Hname & Hmail & Hpass & -> & Htable & Huuid & Hemail).
  repeat apply conj.
  - exact Hname.
  - reflexivity.
  - unfold AuthUser_CheckPasswordsMatch, CheckPasswordsMatch, account_of.
    cbn [NewAuthUser AuthUser.HashedPassword]. rewrite Hpass.
    assert (Hok : CompareHashAndPassword hash (SignupReq.Password user) = None)
      by (now apply (compare_generated _ _ _ _ Hhash)).
    now rewrite Hok.
  - rewrite Htable, length_app. cbn. lia.
  - rewrite FindUserByEmail_eq. cbn [select_user]. rewrite Htable.
    rewrite (find_app_absent _ _ _ Hemail). cbn [find].
    now rewrite Hmail, String.eqb_refl.
  - rewrite FindUserByUuid_eq. cbn [select_user account_of NewAuthUser AuthUser.Uuid].
    rewrite Htable, (find_app_absent _ _ _ Huuid). cbn [find].
    rewrite String.eqb_refl. cbn [by_uuid]. now rewrite Hmail.
Qed.

(** The username of a new account is the address, and no validator sees it:
    when [CheckUsername] refuses the address, [FindUserByUsername] refuses the
    username of the account just created, with that error and without a
    query. *)
Theorem CreateStandardUser_username_unchecked (user : SignupReq.t) (a : mail.Address)
    (u : AuthUser.t) (err : error_value) (w w' : World) :
  ParseAddress (SignupReq.Email user) = (Some a, None) ->
  select_user FIND_USER_BY_EMAIL_SQL (mail.Addr a) (store w) = None ->
  CreateStandardUser user w = Returns (Some u, None) w' ->
  CheckUsername (mail.Addr a) = Some err ->
  select_user FIND_USER_BY_USERNAME_SQL (AuthUser.Username u) (store w') <> None /\
  FindUserByUsername (AuthUser.Username u) w' = Returns (None, Some err) w'.
Proof.
  intros Hparse Hrow Hcall Hcheck.
  destruct (CreateStandardUser_created _ _ _ _ _ Hparse Hrow Hcall)
    as (hash & new & _ & _ & Hname & _ & _ & -> & Htable & _ & _).
  cbn [account_of NewAuthUser AuthUser.Username]. rewrite Hname. split.
  - cbn [select_user]. rewrite Htable. intros Hnone.
    assert (Hin : In new (users_table (store w) ++ [new]))
      by (apply in_or_app; right; now left).
    apply (find_none _ _ Hnone) in Hin.
    rewrite Hname, String.eqb_refl in Hin. discriminate.
  - now apply FindUserByUsername_invalid.
Qed.

(** A registration with the email of an account that is not verified, once
    it has returned: the account returned is the one read before the write,
    no account is added, and the account read back by email is the same
    account with a hash that accepts the password of the request. *)
Theorem CreateStandardUser_reissued (user : SignupReq.t) (a : mail.Address)
    (r : users.row) (u : AuthUser.t) (w w' : World) :
  ParseAddress (SignupReq.Email user) = (Some a, None) ->
  select_user FIND_USER_BY_EMAIL_SQL (mail.Addr a) (store w) = Some r ->
  CreateStandardUser user w = Returns (Some u, None) w' ->
  u = account_of (mail.Addr a) r /\
  map users.uuid (users_table (store w')) = map users.uuid (users_table (store w)) /\
  map users.email (users_table (store w')) = map users.email (users_table (store w)) /\
  exists u' w'',
    FindUserByEmail (Some a) w' = Returns (Some u', None) w'' /\
    AuthUser.Uuid u' = AuthUser.Uuid u /\
    AuthUser_CheckPasswordsMatch u' (SignupReq.Password user) = None.
Proof.
  intros Hparse Hrow Hcall.
  destruct (CheckPassword (SignupReq.Password user)) as [e |] eqn:Hpw.
  { rewrite (CreateStandardUser_invalid_password _ _ _ Hpw) in Hcall. discriminate. }
  rewrite (CreateStandardUser_found _ _ _ _ Hpw Hparse Hrow) in Hcall. cbv zeta in Hcall.
  destruct (users.email_verified r); [discriminate |].
  destruct (GenerateFromPassword _ _ _) as [hash [e |]] eqn:Hhash; [discriminate |].
  injection Hcall as <- <-.
  cbn [password_written store sent with_store drawn].
  unfold set_password. cbn [users_table set_users]. rewrite !map_map.
  repeat apply conj.
  - reflexivity.
  - apply map_ext. intros x. now destruct (users.uuid x =? users.uuid r)%string.
  - apply map_ext. intros x. now destruct (users.uuid x =? users.uuid r)%string.
  - rewrite FindUserByEmail_eq.
    cbn [password_written store sent with_store drawn select_user].
    unfold set_password. cbn [users_table set_users].
    rewrite find_map_preserving.
    + cbn [select_user] in Hrow. rewrite Hrow. cbn [option_map].
      rewrite String.eqb_refl. cbn [by_email].
      do 2 eexists. split; [reflexivity |]. split; [reflexivity |].
      unfold AuthUser_CheckPasswordsMatch, CheckPasswordsMatch.
      cbn [NewAuthUser AuthUser.HashedPassword users.password].
      assert (Hok : CompareHashAndPassword hash (SignupReq.Password user) = None)
        by (now apply (compare_generated _ _ _ _ Hhash)).
      now rewrite Hok.
    + intros x. now destruct (users.uuid x =? users.uuid r)%string.
Qed.
End Registered.

(** ** What no call does *)

Lemma kept_refl (r : users.row) : kept r r.
Proof. repeat split; auto. Qed.

Lemma kept_trans (r1 r2 r3 : users.row) : kept r1 r2 -> kept r2 r3 -> kept r1 r3.
Proof.
  intros (H1 & H2 & H3) (K1 & K2 & K3). repeat split; try congruence. auto.
Qed.

Lemma Forall2_kept_refl (l : list users.row) : Forall2 kept l l.
Proof. induction l; constructor; auto using kept_refl. Qed.

Lemma Forall2_kept_trans (l1 l2 l3 : list users.row) :
  Forall2 kept l1 l2 -> Forall2 kept l2 l3 -> Forall2 kept l1 l3.
Proof.
  intros H12. revert l3. induction H12 as [| x y l1 l2 Hxy _ IH]; intros l3 H23.
  - inversion H23. constructor.
  - inversion H23 as [| ? z ? l3' Hyz Hrest]; subst.
    constructor; [exact (kept_trans _ _ _ Hxy Hyz) | now apply IH].
Qed.

Lemma accounts_kept_trans (s1 s2 s3 : Store) :
  accounts_kept s1 s2 -> accounts_kept s2 s3 -> accounts_kept s1 s3.
Proof.
  intros (rows1 & added1 & E1 & K1) (rows2 & added2 & E2 & K2).
  rewrite E1 in K2. apply Forall2_app_inv_l in K2 as (ra & rb & Ka & Kb & ->).
  exists ra, (rb ++ added2)%list. split.
  - now rewrite E2, app_assoc.
  - exact (Forall2_kept_trans _ _ _ K1 Ka).
Qed.

Lemma one_step_same (s : Store) : one_step s s.
Proof.
  repeat split; [| lia].
  exists (users_table s), []. split; [now rewrite app_nil_r | apply Forall2_kept_refl].
Qed.

Lemma one_step_update (uuid : string) (g : users.row -> users.row) (s : Store) :
  (forall r, kept r (g r)) -> one_step s (update_users uuid g s).
Proof.
  intros Hg. unfold update_users. repeat split; cbn [users_table set_users].
  - eexists _, []. split; [now rewrite app_nil_r |].
    induction (users_table s) as [| x l IH]; cbn; constructor; [| exact IH].
    destruct (users.uuid x =? uuid)%string; [apply Hg | apply kept_refl].
  - rewrite length_map. lia.
Qed.

Lemma one_step_insert (new : users.row) (s : Store) :
  one_step s (set_users s (users_table s ++ [new])).
Proof.
  repeat split; cbn [users_table set_users].
  - exists (users_table s), [new]. split; [reflexivity | apply Forall2_kept_refl].
  - rewrite length_app. cbn. lia.
Qed.

Lemma one_step_set_password (hash uuid : string) (s : Store) :
  one_step s (set_password hash uuid s).
Proof.
  change (set_password hash uuid s) with
    (update_users uuid
       (fun r => {| users.uuid := users.uuid r; users.first_name := users.first_name r;
                    users.last_name := users.last_name r;
                    users.username := users.username r;
                    users.email := users.email r; users.password := hash;
                    users.email_verified := users.email_verified r;
                    users.can_signin := users.can_signin r;
                    users.updated_on := advance (users.updated_on r) |}) s).
  apply one_step_update. intros r. repeat split; auto.
Qed.

Lemma kept_updated_row (r : users.row) (first_name last_name username email : string) :
  kept r (updated_row r first_name last_name username email (users.email_verified r)) /\
  kept r (updated_row r first_name last_name username email true).
Proof. repeat split; auto. Qed.

(** The statements of the setters. *)
Lemma one_step_run_update (q : statement) (args : list string) (now : N) (s : Store) :
  In q [SET_EMAIL_VERIFIED_SQL; SET_USERNAME_SQL; SET_NAME_SQL; SET_INFO_SQL;
        SET_EMAIL_SQL] ->
  one_step s (fst (run_update q args now s)).
Proof.
  intros Hq. cbn in Hq.
  destruct Hq as [<- | [<- | [<- | [<- | [<- | []]]]]];
    destruct args as [| a1 [| a2 [| a3 [| a4 [| a5 args]]]]];
    cbn [run_update run_exec fst]; try apply one_step_same;
    try (destruct (taken _ _ _ _); cbn [fst]; [apply one_step_same |]);
    apply one_step_update; intros r; apply kept_updated_row.
Qed.

Lemma written_step (q : statement) (args : list string) (message : string) (w : World) :
  In q [SET_EMAIL_VERIFIED_SQL; SET_USERNAME_SQL; SET_NAME_SQL; SET_INFO_SQL;
        SET_EMAIL_SQL] ->
  one_step (store w) (store (final (written q args message w))).
Proof. intros Hq. unfold written. cbn. now apply one_step_run_update. Qed.

Lemma role_permissions_loop_world (rows : list role_permission.row) :
  forall currentRole ret w, final (role_permissions_loop rows currentRole ret w) = w.
Proof.
  induction rows as [| r rest IH]; intros currentRole ret w; [reflexivity |].
  cbn [role_permissions_loop]. destruct (index_alter _ _ _); [apply IH | reflexivity].
Qed.

Lemma fill_names_world (roles : list Role.t) :
  forall ri ret w, final (fill_names ri roles ret w) = w.
Proof.
  induction roles as [| role rest IH]; intros ri ret w; [reflexivity |].
  cbn [fill_names]. destruct (index_alter _ _ _); [apply IH | reflexivity].
Qed.

Section NoCall.
Context {net_mail : NetMail} {bcrypt : Bcrypt}.

Lemma FindUserById_store (id : string) (w : World) :
  store (final (FindUserById id w)) = store w.
Proof.
  destruct (FindUserByUsername_journal id w) as [_ Hs].
  unfold FindUserById. unfold bind at 1.
  destruct (FindUserByUsername_cases id w) as [w1 [[u Hu] | [err Hu]]];
    rewrite Hu in *; cbn [final] in Hs; [exact Hs |].
  destruct (ParseAddress id) as [email [e |]].
  - now rewrite FindUserById_uuid_step.
  - unfold bind at 1.
    destruct email as [a |].
    + rewrite FindUserByEmail_eq.
      destruct (select_user FIND_USER_BY_EMAIL_SQL (mail.Addr a) (store w1));
        cbn [by_email]; [exact Hs |].
      now rewrite FindUserById_uuid_step.
    + rewrite FindUserByEmail_nil. now rewrite FindUserById_uuid_step.
Qed.

Lemma UserRoles_world (user : AuthUser.t) (w : World) :
  final (UserRoles user w) = sent w ROLES_SQL [AuthUser.Uuid user].
Proof.
  unfold UserRoles, bind, Query_roles.
  destruct (query_error w ROLES_SQL [AuthUser.Uuid user]); reflexivity.
Qed.

Lemma RoleList_store (user : AuthUser.t) (w : World) :
  store (final (RoleList user w)) = store w.
Proof.
  pose proof (UserRoles_world user w) as Hw1.
  unfold RoleList. unfold bind at 1.
  destruct (UserRoles user w) as [[roles [e |]] w1 | msg w1];
    cbn [final] in Hw1; subst w1; [reflexivity | | reflexivity].
  unfold bind at 1, deref. destruct roles as [roles |]; [| reflexivity].
  unfold pure at 1. unfold bind.
  pose proof (fill_names_world roles 0 (repeat ""%string (List.length roles))
                (sent w ROLES_SQL [AuthUser.Uuid user])) as Hw.
  destruct (fill_names _ _ _ _); cbn [final] in *; now rewrite Hw.
Qed.

Lemma PublicUserRolePermissions_store (user : AuthUser.t) (w : World) :
  store (final (PublicUserRolePermissions user w)) = store w.
Proof. reflexivity. Qed.

Lemma PublicUserRolePermissionsList_store (user : AuthUser.t) (w : World) :
  store (final (PublicUserRolePermissionsList user w)) = store w.
Proof. reflexivity. Qed.

Lemma CreateStandardUser_step (user : SignupReq.t) (w : World) :
  one_step (store w) (store (final (CreateStandardUser user w))).
Proof.
  destruct (CheckPassword (SignupReq.Password user)) as [err |] eqn:Hpw.
  { rewrite (CreateStandardUser_invalid_password _ _ _ Hpw). apply one_step_same. }
  destruct (ParseAddress_result (SignupReq.Email user)) as [[a Ha] | [e Ha]].
  2: { rewrite (CreateStandardUser_unparsed _ _ _ _ Hpw Ha). apply one_step_same. }
  destruct (select_user FIND_USER_BY_EMAIL_SQL (mail.Addr a) (store w))
    as [r |] eqn:Hrow.
  - rewrite (CreateStandardUser_found _ _ _ _ Hpw Ha Hrow). cbv zeta.
    destruct (users.email_verified r); [apply one_step_same |].
    destruct (GenerateFromPassword _ _ _) as [hash [err |]]; [apply one_step_same |].
    apply one_step_set_password.
  - rewrite (CreateStandardUser_new _ _ _ Hpw Ha Hrow). cbv zeta.
    destruct (GenerateFromPassword _ _ _) as [hash [err |]]; [apply one_step_same |].
    destruct (insert_user _ _ _ _ _ _ _ _) as [s [err |]] eqn:Hins.
    + pose proof (insert_user_error _ _ _ _ _ _ _ _ err
                    ltac:(rewrite Hins; reflexivity)) as Hsame.
      rewrite Hins in Hsame. cbn in Hsame |- *. subst s. apply one_step_same.
    + apply insert_user_done in Hins as (_ & _ & ->).
      match goal with
      | |- context [match select_user ?q ?k (set_users ?s ?l) with _ => _ end] =>
          destruct (select_user q k (set_users s l))
      end; cbn [final store sent with_store drawn]; apply one_step_insert.
Qed.

(** One call, whichever it is. *)
Lemma after_step (c : call) (w : World) : one_step (store w) (store (after c w)).
Proof.
  destruct c; cbn [after].
  - rewrite FindUserById_store. apply one_step_same.
  - destruct (FindUserByUsername_journal username w) as [_ ->]. apply one_step_same.
  - destruct email as [a |]; [rewrite FindUserByEmail_eq | rewrite FindUserByEmail_nil];
      apply one_step_same.
  - rewrite FindUserByUuid_eq. apply one_step_same.
  - rewrite UserRoles_world. apply one_step_same.
  - rewrite RoleList_store. apply one_step_same.
  - rewrite PublicUserRolePermissions_store. apply one_step_same.
  - rewrite PublicUserRolePermissionsList_store. apply one_step_same.
  - rewrite UserDb_Role_eq. apply one_step_same.
  - rewrite AddUserRole_eq. apply one_step_same.
  - rewrite SetIsVerified_eq. cbn [final store sent with_store].
    apply one_step_update. intros r. apply kept_updated_row.
  - destruct (CheckPassword password) as [e |] eqn:Hpw.
    + rewrite (SetPassword_invalid _ _ _ _ Hpw). apply one_step_same.
    + rewrite (SetPassword_eq _ _ _ Hpw).
      destruct (GenerateFromPassword _ _ _) as [hash [e |]]; [apply one_step_same |].
      apply one_step_set_password.
  - rewrite SetUsername_eq. destruct (CheckUsername username); [apply one_step_same |].
    apply written_step. cbn. tauto.
  - rewrite SetName_eq. destruct (CheckName firstName); [apply one_step_same |].
    destruct (CheckName lastName); [apply one_step_same |].
    apply written_step. cbn. tauto.
  - rewrite SetUserInfo_eq. destruct (CheckUsername username); [apply one_step_same |].
    destruct (CheckName firstName); [apply one_step_same |].
    destruct (CheckName lastName); [apply one_step_same |].
    apply written_step. cbn. tauto.
  - unfold SetEmail.
    destruct (CheckEmailIsWellFormed_cases email) as [(a & -> & _) | [e ->]];
      [| apply one_step_same].
    rewrite SetEmailAddress_eq. apply written_step. cbn. tauto.
  - destruct address as [a |]; [| apply one_step_same].
    rewrite SetEmailAddress_eq. apply written_step. cbn. tauto.
  - apply CreateStandardUser_step.
  - rewrite HashPassword_eq.
    destruct (GenerateFromPassword _ _ _) as [h [e |]]; apply one_step_same.
  - unfold CreateOtp. rewrite HashPassword_eq.
    destruct (GenerateFromPassword _ _ _) as [h [e |]]; apply one_step_same.
Qed.

(** Whatever calls are made, in whatever order: every account of the store is
    still there, at its place, with its uuid and its [can_signin], and still
    verified if it was; at most one account per call is added; and the roles
    and the grants of roles are as they were. *)
Theorem calls_keep_accounts (calls : list call) (w : World) :
  accounts_kept (store w) (store (after_all calls w)) /\
  roles_table (store (after_all calls w)) = roles_table (store w) /\
  user_roles_table (store (after_all calls w)) = user_roles_table (store w) /\
  (List.length (users_table (store (after_all calls w))) <=
   List.length (users_table (store w)) + List.length calls)%nat.
Proof.
  revert w. induction calls as [| c calls IH]; intros w; cbn [after_all].
  - destruct (one_step_same (store w)) as (H1 & H2 & H3 & _).
    repeat split; auto. cbn. lia.
  - destruct (after_step c w) as (K1 & K2 & K3 & K4).
    destruct (IH (after c w)) as (H1 & H2 & H3 & H4).
    repeat split.
    + exact (accounts_kept_trans _ _ _ K1 H1).
    + congruence.
    + congruence.
    + cbn [List.length]. lia.
Qed.
End NoCall.

(** ** Role names and the role map *)

Lemma add_role_at (ret : RoleMap) (role : PublicRole.t) (k : string) :
  add_role ret role k =
  if (k =? PublicRole.Name role)%string then
    Some (match ret (PublicRole.Name role) with Some v => v | None => [] end
          ++ PublicRole.Permissions role)%list
  else ret k.
Proof.
  unfold add_role, map_index.
  destruct (ret (PublicRole.Name role)) as [v |] eqn:E; cbn [negb fst];
    unfold map_assign; destruct (k =? PublicRole.Name role)%string eqn:Ek;
    try reflexivity.
  - now rewrite E.
  - now rewrite String.eqb_refl.
Qed.

Lemma fold_add_role (roles : list PublicRole.t) :
  forall (ret : RoleMap) (name : string),
    fold_left add_role roles ret name =
    match ret name with
    | Some v => Some (v ++ permissions_under name roles)%list
    | None =>
        if has_group name roles then Some (permissions_under name roles) else None
    end.
Proof.
  induction roles as [| g roles IH]; intros ret name; cbn [fold_left].
  - unfold permissions_under, has_group. cbn.
    destruct (ret name); [now rewrite app_nil_r | reflexivity].
  - rewrite IH, add_role_at. unfold permissions_under, has_group.
    cbn [filter existsb flat_map].
    rewrite (String.eqb_sym name).
    destruct (PublicRole.Name g =? name)%string eqn:E.
    + apply String.eqb_eq in E. subst name. cbn [flat_map orb].
      destruct (ret (PublicRole.Name g)); now rewrite ?app_assoc.
    + cbn [orb]. reflexivity.
Qed.

(** [PublicUserRolePermissionsList] returns no map.  It sends the one
    statement of [PublicUserRolePermissions] and returns the error of that
    call as it is; the statement is refused for every user, so the call
    returns the refusal of the driver, whatever the store holds. *)
Theorem PublicUserRolePermissionsList_returns_no_map (user : AuthUser.t) (w : World) :
  (forall err w', PublicUserRolePermissions user w = Returns (None, Some err) w' ->
                  PublicUserRolePermissionsList user w = Returns (None, Some err) w') /\
  PublicUserRolePermissionsList user w =
    Returns (None, Some (ErrDriver "no such column: roles.uuid"))
            (sent w USER_ROLE_PERMISSIONS_SQL [AuthUser.Uuid user]).
Proof.
  split.
  - intros err w' Hcall. unfold PublicUserRolePermissionsList, bind.
    now rewrite Hcall.
  - unfold PublicUserRolePermissionsList, bind at 1.
    unfold PublicUserRolePermissions, bind, Query_role_permissions.
    reflexivity.
Qed.





Lemma insert_by_name_in (r x : roles.row) (rows : list roles.row) :
  In x (insert_by_name r rows) <-> x = r \/ In x rows.
Proof.
  induction rows as [| y rows IH]; cbn.
  - intuition.
  - destruct (String.leb (roles.name r) (roles.name y)); cbn; [intuition |].
    rewrite IH. intuition.
Qed.

Lemma order_by_name_in (x : roles.row) (rows : list roles.row) :
  In x (order_by_name rows) <-> In x rows.
Proof.
  induction rows as [| y rows IH]; cbn; [reflexivity |].
  rewrite insert_by_name_in, IH. intuition.
Qed.



Lemma select_roles_in (user_uuid : string) (s : Store) (r : roles.row) :
  In r (select_roles user_uuid s) <-> granted_role s user_uuid r.
Proof.
  unfold select_roles, joined_roles, granted_role.
  rewrite order_by_name_in, in_flat_map. split.
  - intros (ur & Hur & Hin).
    destruct (user_roles.user_uuid ur =? user_uuid)%string eqn:E; [| contradiction].
    apply filter_In in Hin as [Hr Heq].
    apply String.eqb_eq in E, Heq. split; [assumption |]. exists ur. auto.
  - intros (Hr & ur & Hur & Hu & Hrole). exists ur. split; [assumption |].
    rewrite Hu, String.eqb_refl. apply filter_In. split; [assumption |].
    now rewrite Hrole, String.eqb_refl.
Qed.



Section RoleNames.
Context {net_mail : NetMail} {bcrypt : Bcrypt}.



End RoleNames.

(** ** The properties of the rest, on the fixtures *)

Lemma setters_fail_closed_witness :
  let w := world_of two_users_store 0 in
  (exists err w', @SetPassword tagged_bcrypt "u-1" "short" w = Returns (Some err) w' /\
                  store w' = store w) /\
  (exists w', SetUsername "u-1" "bobby" w =
                Returns (Some (Errorf "could not update username")) w' /\
              store w' = store w) /\
  (exists err w', SetName "u-1" "Al" "Lee" w = Returns (Some err) w' /\
                  store w' = store w) /\
  (exists err w', SetUserInfo "u-1" "bobby" "Anna" "Leeds" w = Returns (Some err) w' /\
                  store w' = store w) /\
  (exists err w', @SetEmail addr_spec_mail "u-1" "Ann Lee <ann@example.com>" w =
                    Returns (Some err) w' /\
                  store w' = store w) /\
  (exists err w', SetEmailAddress "u-1" (Some (address_of "bob@example.com")) w =
                    Returns (Some err) w' /\
                  store w' = store w).
Proof.
  pose (w := world_of two_users_store 0).
  pose proof (fun w' err =>
                @setters_fail_closed addr_spec_mail tagged_bcrypt "u-1" w w' err)
    as closed.
  repeat apply conj.
  - do 2 eexists. split; [reflexivity |].
    eapply (proj1 (closed _ _) "short"%string). reflexivity.
  - eexists. split; [reflexivity |].
    eapply (proj1 (proj2 (closed _ _)) "bobby"%string). reflexivity.
  - do 2 eexists. split; [reflexivity |].
    eapply (proj1 (proj2 (proj2 (closed _ _))) "Al"%string "Lee"%string). reflexivity.
  - do 2 eexists. split; [reflexivity |].
    eapply (proj1 (proj2 (proj2 (proj2 (closed _ _))))
             "bobby"%string "Anna"%string "Leeds"%string).
    reflexivity.
  - do 2 eexists. split; [reflexivity |].
    eapply (proj1 (proj2 (proj2 (proj2 (proj2 (closed _ _)))))
             "Ann Lee <ann@example.com>"%string).
    reflexivity.
  - do 2 eexists. split; [reflexivity |].
    eapply (proj2 (proj2 (proj2 (proj2 (proj2 (closed _ _)))))
             (Some (address_of "bob@example.com"))).
    reflexivity.
Defined.

Lemma setters_ignore_unknown_uuid_witness :
  let w := world_of two_users_store 0 in
  (exists w', @SetPassword tagged_bcrypt "u-9" "s3cret.pass" w = Returns None w' /\
              store w' = store w) /\
  (exists w', SetUsername "u-9" "carol" w = Returns None w' /\ store w' = store w) /\
  (exists w', SetName "u-9" "Carol" "Dean" w = Returns None w' /\ store w' = store w) /\
  (exists w', SetUserInfo "u-9" "bobby" "Carol" "Dean" w = Returns None w' /\
              store w' = store w) /\
  (exists w', SetEmailAddress "u-9" (Some (address_of "bob@example.com")) w =
                Returns None w' /\
              store w' = store w) /\
  (exists w', SetIsVerified "u-9" w = Returns None w' /\ store w' = store w).
Proof.
  pose proof (@setters_ignore_unknown_uuid tagged_bcrypt "u-9"
                (world_of two_users_store 0) eq_refl)
    as (Hpassword & Husername & Hname & Hinfo & Hemail & Hverified).
  repeat apply conj.
  - apply (Hpassword "s3cret.pass"%string); [reflexivity | vm_compute; discriminate].
  - apply (Husername "carol"%string). reflexivity.
  - apply (Hname "Carol"%string "Dean"%string); reflexivity.
  - apply (Hinfo "bobby"%string "Carol"%string "Dean"%string); reflexivity.
  - apply (Hemail (address_of "bob@example.com")).
  - exact Hverified.
Defined.

Lemma SetUsername_then_FindUserByUsername_witness :
  let w := world_of two_users_store 0 in
  exists w' u w'',
    SetUsername "u-1" "annie" w = Returns None w' /\
    @FindUserByUsername addr_spec_mail "annie" w' = Returns (Some u, None) w'' /\
    AuthUser.Uuid u = "u-1"%string /\ AuthUser.Email u = "ann@example.com"%string.
Proof.
  eexists.
  destruct (@SetUsername_then_FindUserByUsername addr_spec_mail "u-1" "annie"
              (ann false) (world_of two_users_store 0) _ eq_refl eq_refl)
    as (u & w'' & Hfind & Huuid & _ & Hemail & _).
  exists u, w''. split; [reflexivity |]. split; [exact Hfind |].
  split; [exact Huuid | exact Hemail].
Defined.

Lemma SetEmail_then_FindUserByEmail_witness :
  let w := world_of two_users_store 0 in
  exists w' u w'',
    @SetEmail addr_spec_mail "u-2" "bob.ray@example.com" w = Returns None w' /\
    FindUserByEmail (Some (address_of "bob.ray@example.com")) w' =
      Returns (Some u, None) w'' /\
    AuthUser.Uuid u = "u-2"%string /\ AuthUser.Username u = "bobby"%string.
Proof.
  eexists.
  destruct (@SetEmail_then_FindUserByEmail addr_spec_mail "u-2" "bob.ray@example.com"
              bob (world_of two_users_store 0) _ eq_refl eq_refl)
    as (a & u & w'' & Hparse & Hfind & Huuid & _ & Hname & _).
  injection Hparse as <-.
  exists u, w''. split; [reflexivity |]. split; [exact Hfind |].
  split; [exact Huuid | exact Hname].
Defined.

Lemma SetPassword_then_CheckPasswordsMatch_witness :
  let w := world_of two_users_store 0 in
  exists w' u w'',
    @SetPassword tagged_bcrypt "u-2" "n3w.password" w = Returns None w' /\
    FindUserByUuid "u-2" w' = Returns (Some u, None) w'' /\
    @AuthUser_CheckPasswordsMatch tagged_bcrypt u "n3w.password" = None /\
    @AuthUser_CheckPasswordsMatch tagged_bcrypt u "$bob.password" =
      Some (Errorf "passwords do not match").
Proof.
  eexists.
  destruct (@SetPassword_then_CheckPasswordsMatch tagged_bcrypt "u-2" "n3w.password"
              bob (world_of two_users_store 0) _ eq_refl eq_refl)
    as (u & w'' & Hfind & Hok & Hother).
  exists u, w''. split; [reflexivity |]. split; [exact Hfind |].
  split; [exact Hok |].
  apply Hother; [reflexivity | vm_compute; discriminate | discriminate].
Defined.

Lemma SetIsVerified_then_CreateStandardUser_witness :
  let w := world_of two_users_store 0 in
  exists w1,
    SetIsVerified "u-1" w = Returns None w1 /\
    @CreateStandardUser addr_spec_mail tagged_bcrypt (signup "s3cret.pass") w1 =
      Returns (None, Some already_registered)
              (sent w1 FIND_USER_BY_EMAIL_SQL ["ann@example.com"%string]).
Proof.
  eexists. split; [reflexivity |].
  apply (@SetIsVerified_then_CreateStandardUser addr_spec_mail tagged_bcrypt
           (signup "s3cret.pass") (address_of "ann@example.com") (ann false)
           (world_of two_users_store 0) _ eq_refl eq_refl eq_refl eq_refl).
Defined.

Lemma CreateOtp_accepted_iff_witness :
  let w := world_of two_users_store 0 in
  @CreateOtp tagged_bcrypt (account_of "ann@example.com" (ann false)) w =
    Returns "01700000000"%string (drawn w) /\
  (@CheckOtpValid tagged_bcrypt (account_of "bob@example.com" bob) "01700000000" = None
   <-> (1700000000 = 1700000050)%N).
Proof.
  split; [reflexivity |].
  apply (@CreateOtp_accepted_iff tagged_bcrypt
           (account_of "ann@example.com" (ann false))
           (account_of "bob@example.com" bob) "01700000000"
           (world_of two_users_store 0) _ eq_refl).
Defined.

Lemma CreateStandardUser_then_find_witness :
  let w := world_of standard_role_store 1700000000 in
  exists u w',
    @CreateStandardUser addr_spec_mail tagged_bcrypt (signup "s3cret.pass") w =
      Returns (Some u, None) w' /\
    AuthUser.Username u = "ann@example.com"%string /\
    FindUserByUuid (AuthUser.Uuid u) w' =
      Returns (Some u, None) (sent w' FIND_USER_BY_UUID_SQL [AuthUser.Uuid u]).
Proof.
  do 2 eexists. split; [reflexivity |].
  destruct (@CreateStandardUser_then_find addr_spec_mail tagged_bcrypt
              (signup "s3cret.pass") (address_of "ann@example.com") _
              (world_of standard_role_store 1700000000) _ eq_refl eq_refl eq_refl)
    as (Hname & _ & _ & _ & _ & Hfind).
  split; [exact Hname | exact Hfind].
Defined.

Lemma CreateStandardUser_username_unchecked_witness :
  let w := world_of standard_role_store 1700000000 in
  exists u w',
    @CreateStandardUser addr_spec_mail tagged_bcrypt signup_plus w =
      Returns (Some u, None) w' /\
    AuthUser.Username u = "ann+x@example.com"%string /\
    @FindUserByUsername addr_spec_mail (AuthUser.Username u) w' =
      Returns (None, Some (Errorf "invalid username")) w'.
Proof.
  do 2 eexists. split; [reflexivity |]. split; [reflexivity |].
  apply (@CreateStandardUser_username_unchecked addr_spec_mail tagged_bcrypt
           signup_plus (address_of "ann+x@example.com") _
           (Errorf "invalid username")
           (world_of standard_role_store 1700000000) _ eq_refl eq_refl eq_refl eq_refl).
Defined.

Lemma CreateStandardUser_reissued_witness :
  let w := world_of (ann_store false) 1700000100 in
  exists u w' u' w'',
    @CreateStandardUser addr_spec_mail tagged_bcrypt (signup "s3cret.pass") w =
      Returns (Some u, None) w' /\
    AuthUser.HashedPassword u = "$old.password"%string /\
    FindUserByEmail (Some (address_of "ann@example.com")) w' =
      Returns (Some u', None) w'' /\
    @AuthUser_CheckPasswordsMatch tagged_bcrypt u' "s3cret.pass" = None.
Proof.
  do 2 eexists.
  destruct (@CreateStandardUser_reissued addr_spec_mail tagged_bcrypt
              (signup "s3cret.pass") (address_of "ann@example.com") (ann false) _
              (world_of (ann_store false) 1700000100) _ eq_refl eq_refl eq_refl)
    as (Hu & _ & _ & u' & w'' & Hfind & _ & Hok).
  exists u', w''. split; [reflexivity |]. split; [reflexivity |].
  split; [exact Hfind | exact Hok].
Defined.

Lemma PublicUserRolePermissionsList_returns_no_map_witness :
  let w := world_of two_roles_store 0 in
  let user := account_of "ann@example.com" (ann true) in
  PublicUserRolePermissions user w =
    Returns (None, Some (ErrDriver "no such column: roles.uuid"))
            (sent w USER_ROLE_PERMISSIONS_SQL ["u-1"%string]) /\
  PublicUserRolePermissionsList user w =
    Returns (None, Some (ErrDriver "no such column: roles.uuid"))
            (sent w USER_ROLE_PERMISSIONS_SQL ["u-1"%string]).
Proof.
  split; [reflexivity |].
  apply (proj1 (PublicUserRolePermissionsList_returns_no_map
                  (account_of "ann@example.com" (ann true))
                  (world_of two_roles_store 0))).
  reflexivity.
Defined.


Example calls_on_two_users :
  map users.uuid
    (users_table
       (store (@after_all addr_spec_mail tagged_bcrypt
                 [Call_SetUsername "u-1" "annie"; Call_SetIsVerified "u-2";
                  Call_CreateStandardUser signup_plus;
                  Call_SetPassword "u-1" "short";
                  Call_AddUserRole None "Admin"]
                 (world_of two_users_store 1700000200)))) =
  ["u-1"%string; "u-2"%string; "uuid-0"%string].
Proof. reflexivity. Qed.

(** ** What a lookup returns *)

Lemma select_user_row (q : statement) (key : string) (s : Store) (r : users.row) :
  select_user q key s = Some r ->
  In r (users_table s) /\
  match q with
  | FIND_USER_BY_UUID_SQL => users.uuid r = key
  | FIND_USER_BY_EMAIL_SQL => users.email r = key
  | FIND_USER_BY_USERNAME_SQL => users.username r = key
  | _ => False
  end.
Proof.
  destruct q; cbn [select_user]; try discriminate;
    intros H; apply find_some in H as [Hin Heq]; apply String.eqb_eq in Heq; auto.
Qed.

Section Answers.
Context {net_mail : NetMail} {bcrypt : Bcrypt}.

Lemma by_email_row (a : mail.Address) (s : Store) (u : AuthUser.t) :
  by_email (mail.Addr a) (select_user FIND_USER_BY_EMAIL_SQL (mail.Addr a) s) =
    (Some u, None) ->
  exists r, In r (users_table s) /\ users.email r = mail.Addr a /\ account_of_row u r.
Proof.
  destruct (select_user _ _ _) as [r |] eqn:Hr; [| discriminate].
  apply select_user_row in Hr as [Hin Hkey]. cbn [by_email].
  intros H. injection H as <-. exists r. repeat split; auto.
Qed.

Lemma by_uuid_row (uuid : string) (s : Store) (u : AuthUser.t) :
  by_uuid uuid (select_user FIND_USER_BY_UUID_SQL uuid s) = (Some u, None) ->
  exists r, In r (users_table s) /\ users.uuid r = uuid /\ account_of_row u r.
Proof.
  destruct (select_user _ _ _) as [r |] eqn:Hr; [| discriminate].
  apply select_user_row in Hr as [Hin Hkey]. cbn [by_uuid].
  intros H. injection H as <-. exists r. repeat split; auto.
Qed.

Lemma FindUserByUsername_row (username : string) (u : AuthUser.t) (w w' : World) :
  FindUserByUsername username w = Returns (Some u, None) w' ->
  exists r, In r (users_table (store w)) /\ account_of_row u r /\
    ((CheckUsername username = None /\ users.username r = username) \/
     (exists a, ParseAddress username = (Some a, None) /\ users.email r = mail.Addr a)).
Proof.
  intros H.
  destruct (CheckUsername username) as [e |] eqn:Hc.
  { rewrite (FindUserByUsername_invalid _ _ _ Hc) in H. discriminate. }
  destruct (select_user FIND_USER_BY_USERNAME_SQL username (store w)) as [r |] eqn:Hs.
  - rewrite (FindUserByUsername_found _ _ _ Hc Hs) in H. injection H as <- _.
    apply select_user_row in Hs as [Hin Hkey].
    exists r. repeat split; auto.
  - rewrite (FindUserByUsername_missing _ _ Hc Hs) in H.
    destruct (ParseAddress_result username) as [[a Ha] | [e Ha]]; rewrite Ha in H;
      [| discriminate].
    rewrite FindUserByEmail_eq in H. injection H as H _.
    apply by_email_row in H as (r & Hin & Hkey & Hrow).
    exists r. split; [exact Hin | split; [exact Hrow |]]. right. exists a. auto.
Qed.

(** Whatever account [FindUserById] returns is an account of the store, with
    the columns of its row, and the row answers the identifier: its username
    is the identifier, or its email is the address the identifier parses to,
    or its uuid is the identifier. *)
Theorem FindUserById_sound (id : string) (u : AuthUser.t) (w w' : World) :
  FindUserById id w = Returns (Some u, None) w' ->
  exists r, In r (users_table (store w)) /\ account_of_row u r /\ answers id r.
Proof.
  intros H. unfold FindUserById in H. unfold bind at 1 in H.
  destruct (FindUserByUsername_journal id w) as [_ Hstore].
  destruct (FindUserByUsername_cases id w) as [w1 [[u1 Hu] | [err Hu]]];
    rewrite Hu in *; cbn [final] in Hstore.
  - injection H as <- _.
    apply FindUserByUsername_row in Hu as (r & Hin & Hrow & Hans).
    exists r. split; [exact Hin | split; [exact Hrow |]]. unfold answers. tauto.
  - assert (Htail : forall w0, store w0 = store w ->
              (byUuid <- FindUserByUuid id ;;
               match byUuid with
               | (_, Some err) => pure (None, Some err)
               | (authUser, None) => pure (authUser, None)
               end) w0 = Returns (Some u, None) w' ->
              exists r, In r (users_table (store w)) /\ account_of_row u r /\
                        answers id r).
    { intros w0 Hw0 Ht. unfold bind in Ht. rewrite FindUserByUuid_eq, Hw0 in Ht.
      destruct (by_uuid id _) as [found [e |]] eqn:Hby; [discriminate |].
      injection Ht as -> _. apply by_uuid_row in Hby as (r & Hin & Hkey & Hrow).
      exists r. split; [exact Hin | split; [exact Hrow |]]. unfold answers. tauto. }
    destruct (ParseAddress_result id) as [[a Ha] | [e Ha]]; rewrite Ha in H.
    + unfold bind at 1 in H. rewrite FindUserByEmail_eq, Hstore in H.
      destruct (by_email _ _) as [found [e |]] eqn:Hby.
      * eapply Htail; [| exact H]; exact Hstore.
      * injection H as -> _. apply by_email_row in Hby as (r & Hin & Hkey & Hrow).
        exists r. split; [exact Hin | split; [exact Hrow |]].
        right. left. exists a. auto.
    + eapply Htail; [| exact H]; exact Hstore.
Qed.

End Answers.

Lemma FindUserById_sound_witness :
  let w := world_of two_users_store 0 in
  exists u w' r,
    @FindUserById addr_spec_mail "bob@example.com" w = Returns (Some u, None) w' /\
    In r (users_table (store w)) /\ account_of_row u r /\
    @answers addr_spec_mail "bob@example.com" r.
Proof.
  do 2 eexists.
  destruct (@FindUserById_sound addr_spec_mail "bob@example.com" _
              (world_of two_users_store 0) _ eq_refl) as (r & Hin & Hrow & Hans).
  exists r. split; [reflexivity |]. split; [exact Hin |]. split; [exact Hrow | exact Hans].
Defined.

(** ** The validators against each other *)

Lemma all_in_both (p q r : ascii -> bool) (s : string) :
  (forall c, p c = true -> q c = true -> r c = true) ->
  all_in p s = true -> all_in q s = true -> all_in r s = true.
Proof.
  intros Hr. induction s as [| c s IH]; cbn [all_in]; [reflexivity |].
  intros Hp Hq. apply andb_true_iff in Hp as [Hp1 Hp2].
  apply andb_true_iff in Hq as [Hq1 Hq2].
  apply andb_true_iff. split; [now apply Hr | now apply IH].
Qed.

Lemma name_class_without_space (c : ascii) :
  class NAME_REGEX c = true -> negb (Ascii.eqb c " ") = true ->
  class USERNAME_REGEX c = true.
Proof.
  cbn [class NAME_REGEX USERNAME_REGEX]. unfold one_of.
  cbn [list_ascii_of_string existsb].
  destruct (word c); [reflexivity |].
  destruct (Ascii.eqb c "-"); [reflexivity |].
  destruct (Ascii.eqb c " "); cbn; discriminate.
Qed.

Lemma username_class_no_space (c : ascii) :
  class USERNAME_REGEX c = true -> class USERNAME_REGEX c = true ->
  negb (Ascii.eqb c " ") = true.
Proof.
  intros H _. destruct (Ascii.eqb_spec c " ") as [-> | _]; [| reflexivity].
  vm_compute in H. discriminate.
Qed.

Section Validators.
Context {net_mail : NetMail} {bcrypt : Bcrypt}.

(** The validators nest: a name that [CheckName] accepts and that has no
    space is a username for [CheckUsername]; an email that
    [CheckEmailIsWellFormed] accepts and that has at least 4 bytes is one
    too; and no username that [CheckUsername] accepts has a space. *)
Theorem validators_nest (s : string) :
  (CheckName s = None -> no_space s = true -> CheckUsername s = None) /\
  (forall a, CheckEmailIsWellFormed s = (Some a, None) -> 4 <= len s ->
             CheckUsername s = None) /\
  (CheckUsername s = None -> no_space s = true).
Proof.
  unfold CheckName, CheckUsername, CheckEmailIsWellFormed, no_space, MatchString.
  cbn [rep NAME_REGEX USERNAME_REGEX]. repeat apply conj.
  - destruct (len s <? MIN_NAME_LENGTH); cbn [negb andb]; [discriminate |].
    destruct (s =? "")%string; cbn [negb andb]; [discriminate |].
    destruct (all_in (class NAME_REGEX) s) eqn:Hname;
      cbn [negb andb]; [| discriminate].
    intros _ Hspace.
    now rewrite (all_in_both _ _ _ s name_class_without_space Hname Hspace).
  - intros a.
    destruct (negb (s =? "")%string && all_in (class USERNAME_REGEX) s);
      cbn [negb]; [| discriminate].
    intros _ Hlen.
    destruct (len s <? MIN_NAME_LENGTH) eqn:E; [| reflexivity].
    apply Z.ltb_lt in E. unfold MIN_NAME_LENGTH in E. lia.
  - destruct (len s <? MIN_NAME_LENGTH); cbn [negb andb]; [discriminate |].
    destruct (s =? "")%string; cbn [negb andb]; [discriminate |].
    destruct (all_in (class USERNAME_REGEX) s) eqn:Hname;
      cbn [negb andb]; [| discriminate].
    intros _. exact (all_in_both _ _ _ s username_class_no_space Hname Hname).
Qed.
End Validators.

Lemma validators_nest_witness :
  CheckName "Mary-Ann" = None /\ CheckUsername "Mary-Ann" = None /\
  CheckName "Mary Ann" = None /\
  CheckUsername "Mary Ann" = Some (Errorf "invalid username") /\
  (exists a, @CheckEmailIsWellFormed addr_spec_mail "ann@example.com" = (Some a, None)) /\
  CheckUsername "ann@example.com" = None /\ no_space "ann@example.com" = true.
Proof.
  pose proof (@validators_nest addr_spec_mail) as nest.
  split; [reflexivity |]. split.
  { apply (proj1 (nest "Mary-Ann"%string)); reflexivity. }
  split; [reflexivity |]. split; [reflexivity |].
  assert (Husername : CheckUsername "ann@example.com" = None).
  { apply (proj1 (proj2 (nest "ann@example.com"%string)) (address_of "ann@example.com"));
      [reflexivity | vm_compute; discriminate]. }
  split; [eexists; reflexivity |]. split; [exact Husername |].
  exact (proj2 (proj2 (nest "ann@example.com"%string)) Husername).
Defined.

(** ** Every call and its failures *)



Section EveryCall.
Context {net_mail : NetMail} {bcrypt : Bcrypt}.








End EveryCall.


Example NewUserDB_on_the_fixtures :
  let w := world_of empty_store 0 in
  (exists userdb, NewUserDB "users.db" w = Returns (Some userdb, None) w) /\
  NewUserDB "users.db" (closed w) = Panics "sys.Must" (closed w).
Proof. split; [eexists |]; reflexivity. Qed.
